(** * storage_phase1_analysis: interface partitioning and coverage analysis

    A shallow embedding of [storage_phase1_analysis.py].  The script reads
    the text of [server/storage.ts] and [server/storage.db.ts], groups the
    method names of the [IStorage] interface under its comment markers,
    extracts the method vocabulary of the classes [MemStorage] and
    [DbStorage], and writes a coverage report and a file of narrowed
    contract types.

    Text is modelled by [string]; a character is one of the first 256 code
    points, and the white space of [str.strip], [str.split] and the regular
    expression class [\s] is Python's on that range. *)

From Stdlib Require Import List Bool Arith Lia Ascii String.
From Stdlib Require Import Numbers.DecimalString.
Import ListNotations.
Open Scope string_scope.

Set Implicit Arguments.

(** ** Python's [str] methods used by the script *)

Module Str.

(** [str.isspace] on one character: TAB..CR, FS..US, SPACE, NEL, NBSP. *)
Definition is_space (c : ascii) : bool :=
  let n := nat_of_ascii c in
  (((9 <=? n) && (n <=? 13)) || ((28 <=? n) && (n <=? 32))
   || (n =? 133) || (n =? 160))%nat.

(** The class [[a-zA-Z0-9_]]. *)
Definition is_word (c : ascii) : bool :=
  let n := nat_of_ascii c in
  (((48 <=? n) && (n <=? 57)) || ((65 <=? n) && (n <=? 90))
   || ((97 <=? n) && (n <=? 122)) || (n =? 95))%nat.

Definition newline : ascii := "010"%char.

Definition is_empty (s : string) : bool :=
  match s with EmptyString => true | String _ _ => false end.

Fixpoint forallb (p : ascii -> bool) (s : string) : bool :=
  match s with
  | EmptyString => true
  | String c s' => p c && forallb p s'
  end.

Fixpoint lstrip (s : string) : string :=
  match s with
  | EmptyString => EmptyString
  | String c s' => if is_space c then lstrip s' else s
  end.

Fixpoint rstrip (s : string) : string :=
  match s with
  | EmptyString => EmptyString
  | String c s' =>
      let r := rstrip s' in
      if is_space c && is_empty r then EmptyString else String c r
  end.

(** [s.strip()] *)
Definition strip (s : string) : string := rstrip (lstrip s).

(** [s.startswith(p)] *)
Definition startswith (p s : string) : bool := prefix p s.

(** [p in s] for strings *)
Fixpoint contains (p s : string) : bool :=
  prefix p s ||
  match s with
  | EmptyString => false
  | String _ s' => contains p s'
  end.

(** [s.split(sep)] for a one-character separator: never the empty list. *)
Fixpoint split (sep : ascii) (s : string) : list string :=
  match s with
  | EmptyString => [EmptyString]
  | String c s' =>
      if Ascii.eqb c sep then EmptyString :: split sep s'
      else match split sep s' with
           | h :: t => String c h :: t
           | [] => [String c EmptyString]
           end
  end.

(** [s.split()]: the maximal runs of characters that are not white space. *)
Fixpoint words (s : string) : list string :=
  match s with
  | EmptyString => []
  | String c s' =>
      if is_space c then words s'
      else match s' with
           | EmptyString => [String c EmptyString]
           | String c' _ =>
               if is_space c' then String c EmptyString :: words s'
               else match words s' with
                    | h :: t => String c h :: t
                    | [] => [String c EmptyString]
                    end
           end
  end.

(** [sep.join(l)] *)
Definition join (sep : string) (l : list string) : string := concat sep l.

(** [str(n)] for a length *)
Definition of_nat (n : nat) : string :=
  NilEmpty.string_of_uint (Nat.to_uint n).

End Str.

(** ** Regular expressions, matched by backtracking as [re] does *)

Module Re.

(** The fragment of the pattern language the script uses: literals,
    character classes, a class under a greedy or a lazy quantifier,
    sequencing and capturing groups. *)
Inductive regex : Type :=
| Lit (l : string)
| Cls (p : ascii -> bool)
| Star (p : ascii -> bool)       (* [c*]  *)
| Plus (p : ascii -> bool)       (* [c+]  *)
| LazyStar (p : ascii -> bool)   (* [c*?] *)
| Seq (r1 r2 : regex)
| Grp (r : regex).

(** [.] under [re.S], [.] without it, [\s] and [[a-zA-Z0-9_]]. *)
Definition any : ascii -> bool := fun _ => true.
Definition dot : ascii -> bool := fun c => negb (Ascii.eqb c Str.newline).
Definition space : ascii -> bool := Str.is_space.
Definition word : ascii -> bool := Str.is_word.

Fixpoint seq (rs : list regex) : regex :=
  match rs with
  | [] => Lit ""
  | [r] => r
  | r :: rs' => Seq r (seq rs')
  end.

Section Matcher.
Variable A : Type.

Fixpoint drop_prefix (l s : string) : option string :=
  match l, s with
  | EmptyString, _ => Some s
  | String a l', String b s' =>
      if Ascii.eqb a b then drop_prefix l' s' else None
  | String _ _, EmptyString => None
  end.

(** Greedy: take one more character first, give it back on failure. *)
Fixpoint star (p : ascii -> bool) (s : string)
         (k : string -> option A) : option A :=
  match s with
  | String c s' =>
      if p c then
        match star p s' k with
        | Some r => Some r
        | None => k s
        end
      else k s
  | EmptyString => k s
  end.

(** Lazy: try the continuation first, take a character on failure. *)
Fixpoint lazy_star (p : ascii -> bool) (s : string)
         (k : string -> option A) : option A :=
  match k s with
  | Some r => Some r
  | None =>
      match s with
      | String c s' => if p c then lazy_star p s' k else None
      | EmptyString => None
      end
  end.

(** [run r s caps k]: match [r] at the start of [s]; [k] receives the
    rest of the text and the groups closed so far. *)
Fixpoint run (r : regex) (s : string) (caps : list string)
         (k : string -> list string -> option A) : option A :=
  match r with
  | Lit l =>
      match drop_prefix l s with
      | Some rest => k rest caps
      | None => None
      end
  | Cls p =>
      match s with
      | String c s' => if p c then k s' caps else None
      | EmptyString => None
      end
  | Star p => star p s (fun rest => k rest caps)
  | Plus p =>
      match s with
      | String c s' => if p c then star p s' (fun rest => k rest caps) else None
      | EmptyString => None
      end
  | LazyStar p => lazy_star p s (fun rest => k rest caps)
  | Seq r1 r2 => run r1 s caps (fun rest caps' => run r2 rest caps' k)
  | Grp r' =>
      run r' s caps
          (fun rest caps' =>
             k rest (caps' ++ [substring 0 (length s - length rest) s])%list)
  end.

End Matcher.

(** [re.match(r, s)]: the groups, and the text after the match. *)
Definition match_ (r : regex) (s : string) : option (list string * string) :=
  run r s [] (fun rest caps => Some (caps, rest)).

(** [re.search(r, s)]: the leftmost position where [r] matches. *)
Fixpoint search (r : regex) (s : string) : option (list string * string) :=
  match match_ r s with
  | Some m => Some m
  | None =>
      match s with
      | EmptyString => None
      | String _ s' => search r s'
      end
  end.

(** [m.group(1)] *)
Definition group1 (m : list string * string) : string := nth 0 (fst m) "".

(** [re.sub('^' + r, repl, s)]: the pattern is anchored at the start of the
    text, so at most the one match there is replaced. *)
Definition sub_at_start (r : regex) (repl s : string) : string :=
  match match_ r s with
  | Some (_, rest) => repl ++ rest
  | None => s
  end.

End Re.

(** ** The section table: an [OrderedDict] from title to list of names *)

Definition odict : Type := list (string * list string).

Fixpoint get (d : odict) (k : string) : option (list string) :=
  match d with
  | [] => None
  | (k', v) :: d' => if String.eqb k' k then Some v else get d' k
  end.

(** [d.get(k, [])] *)
Definition get_or_nil (d : odict) (k : string) : list string :=
  match get d k with Some v => v | None => [] end.

Definition keys (d : odict) : list string := map fst d.

(** [d.setdefault(k, [])]: a new key goes to the end. *)
Fixpoint setdefault (d : odict) (k : string) : odict :=
  match d with
  | [] => [(k, [])]
  | (k', v) :: d' =>
      if String.eqb k' k then d else (k', v) :: setdefault d' k
  end.

(** [d.setdefault(k, []).append(n)] *)
Fixpoint setdefault_append (d : odict) (k n : string) : odict :=
  match d with
  | [] => [(k, [n])]
  | (k', v) :: d' =>
      if String.eqb k' k then (k', (v ++ [n])%list) :: d'
      else (k', v) :: setdefault_append d' k n
  end.

(** ** Sections of the interface body (lines 9-26) *)

(** The pattern [export interface IStorage \{ ( .* ) \n \}] (its parts
    spaced out here), under [re.S] *)
Definition interface_re : Re.regex :=
  Re.seq [Re.Lit "export interface IStorage {"; Re.Grp (Re.Star Re.any);
          Re.Lit (String Str.newline "}")].

(** The pattern [^ // \s*], without its anchor *)
Definition marker_re : Re.regex := Re.Seq (Re.Lit "//") (Re.Star Re.space).

(** The pattern [( [a-zA-Z0-9_]+ ) \(] *)
Definition signature_re : Re.regex :=
  Re.Seq (Re.Grp (Re.Plus Re.word)) (Re.Lit "(").

(** The state of the loop: the table and [current]. *)
Definition sec_state : Type := (odict * string)%type.

Definition sections_step (st : sec_state) (raw : string) : sec_state :=
  let '(sections, current) := st in
  let line := Str.strip raw in
  if Str.is_empty line then st
  else if Str.startswith "//" line then
    let current' := Re.sub_at_start marker_re "" line in
    (setdefault sections current', current')
  else
    match Re.match_ signature_re line with
    | Some m => (setdefault_append sections current (Re.group1 m), current)
    | None => st
    end.

Definition sections_loop (lines : list string) : sec_state :=
  fold_left sections_step lines ([], "General").

Definition sections_of_body (body : string) : odict :=
  fst (sections_loop (Str.split Str.newline body)).

(** ** The method vocabulary of a class (lines 29-46) *)

(** A Python [set] of names; the script only adds to it and asks for
    membership. *)
Definition name_set : Type := list string.

Definition set_mem (n : string) (s : name_set) : bool :=
  existsb (String.eqb n) s.

Definition set_add (n : string) (s : name_set) : name_set :=
  if set_mem n s then s else (s ++ [n])%list.

(** The pattern [class \s+ {class_name} .*? \{ ( .* ) \n \}], under [re.S].
    The source splices the name into the pattern as it is, so a name with
    pattern operators in it would be read as a pattern, or refused by
    [re].  This model is the source's for names of identifier characters
    only, where the name stands for itself; both calls of the script pass
    such a name, and every statement about another name assumes it is
    one. *)
Definition class_re (class_name : string) : Re.regex :=
  Re.seq [Re.Lit "class"; Re.Plus Re.space; Re.Lit class_name;
          Re.LazyStar Re.any; Re.Lit "{"; Re.Grp (Re.Star Re.any);
          Re.Lit (String Str.newline "}")].

(** The pattern [[a-zA-Z0-9_]+ \( .* \) \s* \{] *)
Definition sync_re : Re.regex :=
  Re.seq [Re.Plus Re.word; Re.Lit "("; Re.Star Re.dot; Re.Lit ")";
          Re.Star Re.space; Re.Lit "{"].

Definition is_some {A : Type} (o : option A) : bool :=
  match o with Some _ => true | None => false end.

Definition methods_step (result : name_set) (line : string) : name_set :=
  let stripped := Str.strip line in
  if Str.is_empty stripped || Str.startswith "//" stripped then result
  else if Str.startswith "async " stripped then
    let name := last (Str.words (hd "" (Str.split "(" stripped))) "" in
    set_add name result
  else if is_some (Re.match_ sync_re stripped)
          && negb (Str.contains "constructor" stripped)
          && negb (Str.contains "async" stripped) then
    let name := hd "" (Str.split "(" stripped) in
    set_add name result
  else result.

Definition methods_of_block (block : string) : name_set :=
  fold_left methods_step (Str.split Str.newline block) [].

Definition extract_methods (text class_name : string) : name_set :=
  match Re.search (class_re class_name) text with
  | None => []
  | Some m => methods_of_block (Re.group1 m)
  end.

(** ** The coverage report (lines 48-73) *)

Definition nl : string := String Str.newline "".

(** [[n for n in names if n != 'constructor']] *)
Definition filtered (names : list string) : list string :=
  filter (fun n => negb (String.eqb n "constructor")) names.

(** [[n for n in filtered if n not in vocabulary]] *)
Definition missing (names : list string) (vocabulary : name_set) : list string :=
  filter (fun n => negb (set_mem n vocabulary)) names.

Definition is_nil {A : Type} (l : list A) : bool :=
  match l with [] => true | _ :: _ => false end.

Definition count_line (sec : string) (total k_mem k_db : nat) : string :=
  "[" ++ sec ++ "] total=" ++ Str.of_nat total
      ++ " missing_mem=" ++ Str.of_nat k_mem
      ++ " missing_db=" ++ Str.of_nat k_db.

(** The body of the first loop, for one item of [sections.items()]. *)
Definition summary_lines (mem_methods db_methods : name_set)
           (item : string * list string) : list string :=
  let '(sec, names) := item in
  let filtered := filtered names in
  let missing_mem := missing filtered mem_methods in
  let missing_db := missing filtered db_methods in
  ([count_line sec (List.length filtered) (List.length missing_mem)
               (List.length missing_db)]
   ++ (if is_nil missing_mem then []
       else [("  missing_mem_list=" ++ Str.join ", " missing_mem)%string])
   ++ (if is_nil missing_db then []
       else [("  missing_db_list=" ++ Str.join ", " missing_db)%string]))%list.

Definition flag (name : string) (vocabulary : name_set) : string :=
  if set_mem name vocabulary then "Y" else "N".

Definition method_line (mem_methods db_methods : name_set) (name : string)
  : string :=
  "- " ++ name ++ ": inMem=" ++ flag name mem_methods
       ++ ", inDb=" ++ flag name db_methods.

(** The body of the second loop. *)
Definition detail_lines (mem_methods db_methods : name_set)
           (item : string * list string) : list string :=
  let '(sec, names) := item in
  let filtered := filtered names in
  if is_nil filtered then []
  else ("## " ++ sec) :: map (method_line mem_methods db_methods) filtered.

Definition REPORT_LINES (sections : odict) (mem_methods db_methods : name_set)
  : list string :=
  (["SECTION_SUMMARY"]
   ++ flat_map (summary_lines mem_methods db_methods) sections
   ++ [(nl ++ "DETAILED_METHODS")%string]
   ++ flat_map (detail_lines mem_methods db_methods) sections)%list.

(** ** The generated contracts (lines 75-130) *)

Definition SECTION_CONFIG : list (string * (string * string)) :=
  [ ("User management (IMPORTANT: Required methods for Replit Auth)",
     ("UserRepository", "users"));
    ("Member profiles", ("MemberProfileRepository", "members"));
    ("Sanitized public access methods (PII-safe)",
     ("PublicDirectoryRepository", "publicDirectory"));
    ("Contractor profiles", ("ContractorRepository", "contractors"));
    ("Merchant profiles", ("MerchantRepository", "merchants"));
    ("Home details", ("HomeDetailsRepository", "homes"));
    ("Service requests", ("ServiceRequestRepository", "serviceRequests"));
    ("Work orders", ("WorkOrderRepository", "workOrders"));
    ("Estimates", ("EstimateRepository", "estimates"));
    ("Invoices", ("InvoiceRepository", "invoices"));
    ("Loyalty points", ("LoyaltyRepository", "loyalty"));
    ("Deals", ("DealRepository", "deals"));
    ("Messages", ("MessageRepository", "messages"));
    ("Notifications", ("NotificationRepository", "notifications"));
    ("Notification Settings",
     ("NotificationSettingsRepository", "notificationSettings"));
    ("Calendar events", ("CalendarRepository", "calendar"));
    ("Community", ("CommunityRepository", "community"));
    ("Forums", ("ForumRepository", "forums"));
    ("Forum Topics", ("ForumTopicRepository", "forumTopics"));
    ("Forum Posts", ("ForumPostRepository", "forumPosts"));
    ("Forum Post Voting", ("ForumVoteRepository", "forumVotes"));
    ("Forum Statistics and Analytics",
     ("ForumAnalyticsRepository", "forumAnalytics"));
    ("Forum Moderation", ("ForumModerationRepository", "forumModeration"));
    ("Gamification - Badges", ("BadgeRepository", "badges"));
    ("Gamification - Ranks", ("RankRepository", "ranks"));
    ("Gamification - Achievements", ("AchievementRepository", "achievements"));
    ("Maintenance Items", ("MaintenanceRepository", "maintenance"));
    ("Time slot management", ("SchedulingSlotRepository", "schedulingSlots"));
    ("Work order scheduling queries",
     ("SchedulingWorkOrderRepository", "schedulingWorkOrders"));
    ("Schedule conflict management",
     ("SchedulingConflictRepository", "schedulingConflicts"));
    ("Schedule audit logging", ("SchedulingAuditRepository", "schedulingAudit"));
    ("Data seeding and initialization", ("SeedRepository", "seed")) ].

(** The declaration of one narrowed type. *)
Definition type_decl (type_name : string) (methods : list string) : string :=
  let keys :=
    Str.join (" |" ++ nl ++ "  ") (map (fun name => "'" ++ name ++ "'") methods) in
  "export type " ++ type_name ++ " = Pick<IStorage," ++ nl ++ "  " ++ keys
                 ++ nl ++ ">;" ++ nl.

(** The state of the loop over the configuration: [contracts_lines] and
    [repository_entries], a list of (property name, type name). *)
Definition gen_state : Type := (list string * list (string * string))%type.

Definition contracts_step (sections : odict) (st : gen_state)
           (item : string * (string * string)) : gen_state :=
  let '(contracts_lines, repository_entries) := st in
  let '(sec, (type_name, prop_name)) := item in
  let methods := filtered (get_or_nil sections sec) in
  if is_nil methods then st
  else ((contracts_lines ++ [type_decl type_name methods])%list,
        (repository_entries ++ [(prop_name, type_name)])%list).

Definition contracts_loop (config : list (string * (string * string)))
           (sections : odict) : gen_state :=
  fold_left (contracts_step sections) config
            (["import type { IStorage } from '../storage';"; ""], []).

Definition repository_entries (config : list (string * (string * string)))
           (sections : odict) : list (string * string) :=
  snd (contracts_loop config sections).

Definition aggregate_line (e : string * string) : string :=
  let '(prop_name, type_name) := e in
  "  " ++ prop_name ++ ": " ++ type_name ++ ";".

Definition factory_line (e : string * string) : string :=
  let '(prop_name, type_name) := e in
  "  " ++ prop_name ++ ": storage as " ++ type_name ++ ",".

Definition contracts_lines (config : list (string * (string * string)))
           (sections : odict) : list string :=
  let '(lines, entries) := contracts_loop config sections in
  (lines
   ++ ["export interface StorageRepositories {"]
   ++ map aggregate_line entries
   ++ [("}" ++ nl)%string]
   ++ ["export const createStorageRepositories = (storage: IStorage): StorageRepositories => ({"]
   ++ map factory_line entries
   ++ [("});" ++ nl)%string])%list.

(** ** The script as a whole *)

(** What a run leaves behind: [SystemExit] with its message, or the text of
    [storage_phase1_report.txt] and of [server/storage/contracts.ts]. *)
Inductive outcome : Type :=
| SystemExit (message : string)
| Written (report contracts : string).

(** Everything after the two vocabularies are known. *)
Definition write_outputs (sections : odict) (mem_methods db_methods : name_set)
  : outcome :=
  Written (Str.join nl (REPORT_LINES sections mem_methods db_methods))
          (Str.join nl (contracts_lines SECTION_CONFIG sections)).

Definition main (interface_text db_text : string) : outcome :=
  match Re.search interface_re interface_text with
  | None => SystemExit "IStorage interface not found"
  | Some m =>
      let body := Re.group1 m in
      let sections := sections_of_body body in
      let mem_methods := extract_methods interface_text "MemStorage" in
      let db_methods := extract_methods db_text "DbStorage" in
      write_outputs sections mem_methods db_methods
  end.

(** ** Notions used to state the properties *)

(** [l1] is [l2] with some elements left out, the others in their order. *)
Inductive subseq {A : Type} : list A -> list A -> Prop :=
| subseq_nil : subseq [] []
| subseq_skip x l1 l2 : subseq l1 l2 -> subseq l1 (x :: l2)
| subseq_keep x l1 l2 : subseq l1 l2 -> subseq (x :: l1) (x :: l2).

(** Two representations of a set with the same elements, whatever the
    order the hash table keeps them in. *)
Definition same_members (a b : name_set) : Prop :=
  forall n, set_mem n a = set_mem n b.

(** The section title has an entry with a method other than the
    constructor. *)
Definition has_method (sections : odict) (sec : string) : Prop :=
  exists names n,
    get sections sec = Some names /\ In n names /\ n <> "constructor".

Definition nonempty_section (sections : odict)
           (item : string * (string * string)) : bool :=
  negb (is_nil (filtered (get_or_nil sections (fst item)))).

(** The declaration and the aggregate entry a configured domain gives
    rise to when it is not skipped. *)
Definition decl_of (sections : odict) (item : string * (string * string))
  : string :=
  type_decl (fst (snd item)) (filtered (get_or_nil sections (fst item))).

Definition entry_of (item : string * (string * string)) : string * string :=
  (snd (snd item), fst (snd item)).

Definition header_lines : list string :=
  ["import type { IStorage } from '../storage';"; ""].

Fixpoint distinctb (l : list string) : bool :=
  match l with
  | [] => true
  | x :: l' => negb (existsb (String.eqb x) l') && distinctb l'
  end.

(** *** Lines of the interface body

    What a raw line is for the section loop: a marker with its title, a
    signature line with its method name, or neither. *)
Definition line_title (raw : string) : option string :=
  let line := Str.strip raw in
  if Str.is_empty line then None
  else if Str.startswith "//" line
       then Some (Re.sub_at_start marker_re "" line)
       else None.

Definition line_name (raw : string) : option string :=
  let line := Str.strip raw in
  if Str.is_empty line then None
  else if Str.startswith "//" line then None
       else option_map Re.group1 (Re.match_ signature_re line).

Fixpoint first_title (lines : list string) : option string :=
  match lines with
  | [] => None
  | raw :: rest =>
      match line_title raw with
      | Some t => Some t
      | None => first_title rest
      end
  end.

(** The title of the nearest marker among the lines [before] a line,
    found walking back from it; ['General'] when there is none. *)
Definition nearest_marker (before : list string) : string :=
  match first_title (rev before) with
  | Some t => t
  | None => "General"
  end.

(** The names a line contributes to the section [t], given the lines
    before it. *)
Definition contribution (t : string) (before : list string) (raw : string)
  : list string :=
  match line_name raw with
  | Some n => if String.eqb (nearest_marker before) t then [n] else []
  | None => []
  end.

(** The names of the signature lines of [lines] whose nearest preceding
    marker is [t], in source order; [before] are the lines that precede
    [lines]. *)
Fixpoint under (t : string) (before lines : list string) : list string :=
  match lines with
  | [] => []
  | raw :: rest =>
      (contribution t before raw ++ under t (before ++ [raw]) rest)%list
  end.

(** The title a line refers to: its own for a marker, the nearest
    preceding one for a signature line. *)
Definition title_of (before : list string) (raw : string) : option string :=
  match line_title raw with
  | Some t => Some t
  | None =>
      match line_name raw with
      | Some _ => Some (nearest_marker before)
      | None => None
      end
  end.

Fixpoint titles (before lines : list string) : list string :=
  match lines with
  | [] => []
  | raw :: rest =>
      ((match title_of before raw with Some t => [t] | None => [] end)
         ++ titles (before ++ [raw]) rest)%list
  end.

(** A list without its repetitions, every element at the place of its
    first occurrence. *)
Fixpoint first_seen (l : list string) : list string :=
  match l with
  | [] => []
  | x :: l' => x :: filter (fun y => negb (String.eqb y x)) (first_seen l')
  end.

Definition is_signature (raw : string) : bool := is_some (line_name raw).

(** The number of names in the table, all sections together. *)
Definition total_names (d : odict) : nat :=
  List.length (List.concat (map snd d)).

Definition no_newline (s : string) : bool :=
  Str.forallb (fun c => negb (Ascii.eqb c Str.newline)) s.

(** What holds of the state of the section loop once the lines [before]
    have been read. *)
Definition loop_inv (before : list string) (st : sec_state) : Prop :=
  snd st = nearest_marker before
  /\ keys (fst st) = first_seen (titles [] before)
  /\ (forall t, get_or_nil (fst st) t = under t [] before)
  /\ total_names (fst st) = List.length (filter is_signature before).

(** *** Places in a text *)

(** [t] is what is left of [s] from some position on. *)
Definition is_suffix (t s : string) : Prop := exists p, s = p ++ t.

(** A quantified class cannot go on at the start of [s]. *)
Definition stops (p : ascii -> bool) (s : string) : bool :=
  match s with
  | EmptyString => true
  | String c _ => negb (p c)
  end.

(** [test] holds at no position of the text [pre ++ rest] that lies in
    [pre]. *)
Fixpoint none_before (test : string -> bool) (pre rest : string) : bool :=
  match pre with
  | EmptyString => true
  | String _ pre' => negb (test (pre ++ rest)) && none_before test pre' rest
  end.

Definition interface_header : string := "export interface IStorage {".

Definition closing : string := String Str.newline "}".

(** The start of [class_re]: the keyword, white space and the name. *)
Definition class_header_re (class_name : string) : Re.regex :=
  Re.seq [Re.Lit "class"; Re.Plus Re.space; Re.Lit class_name].

Definition class_header (class_name s : string) : bool :=
  is_some (Re.match_ (class_header_re class_name) s).

(** A pattern that ends with the literal [l]. *)
Fixpoint ends_with_lit (l : string) (r : Re.regex) : Prop :=
  match r with
  | Re.Lit l' => l' = l
  | Re.Seq _ r2 => ends_with_lit l r2
  | _ => False
  end.

(** A name of one or more identifier characters. *)
Definition is_ident (s : string) : bool :=
  negb (Str.is_empty s) && Str.forallb Str.is_word s.

(** *** Declaration lines of a class *)

(** A synchronous declaration: the name, the parameters in parentheses,
    white space and the opening brace. *)
Definition sync_decl (name params ws : string) : string :=
  name ++ "(" ++ params ++ ")" ++ ws ++ "{".

(** An asynchronous one: the keyword, the name and whatever follows the
    opening parenthesis. *)
Definition async_decl (name tail : string) : string :=
  "async " ++ name ++ "(" ++ tail.

Definition is_async_line (line : string) : bool :=
  Str.startswith "async " (Str.strip line).

(** ** rewrite_contractor_update.py

    The second script replaces one block of [server/routes.ts] by another
    and writes the file back. *)

Definition dq : string := String (ascii_of_nat 34) "".

Definition old_block : string :=
  "  app.put(" ++ dq ++ "/api/contractors/:id" ++ dq
  ++ ", isAuthenticated, requireOwnershipOrAdmin(), async (req: any, res) => {"
  ++ nl
  ++ "    try {" ++ nl
  ++ "      const { contractorStorage } = await getDirectoryRepositories();"
  ++ nl
  ++ "      const validatedData = ContractorProfileUpdateSchema.parse(req.body);"
  ++ nl
  ++ "      const profile = await contractorStorage.updateContractorProfile(req.params.id, validatedData);"
  ++ nl
  ++ "      if (!profile) {" ++ nl
  ++ "        return res.status(404).json({ error: " ++ dq
  ++ "Contractor profile not found" ++ dq ++ " });" ++ nl
  ++ "      }" ++ nl
  ++ "      res.json(profile);" ++ nl
  ++ "    } catch (error: any) {" ++ nl
  ++ "      console.error(" ++ dq ++ "Contractor update error:" ++ dq
  ++ ", error);" ++ nl
  ++ "      if (error.name === 'ZodError') {" ++ nl
  ++ "        return res.status(400).json({ error: " ++ dq
  ++ "Invalid contractor profile data" ++ dq
  ++ ", details: error.errors });" ++ nl
  ++ "      }" ++ nl
  ++ "      res.status(500).json({ error: " ++ dq ++ "Internal server error"
  ++ dq ++ " });" ++ nl
  ++ "    }" ++ nl
  ++ "  });" ++ nl.

Definition new_block : string :=
  "  app.put(" ++ dq ++ "/api/contractors/:id" ++ dq
  ++ ", isAuthenticated, requireOwnershipOrAdmin(), async (req: any, res) => {"
  ++ nl
  ++ "    try {" ++ nl
  ++ "      const { contractorStorage } = await getDirectoryRepositories();"
  ++ nl
  ++ "      const validatedData = ContractorProfileUpdateSchema.parse(req.body);"
  ++ nl
  ++ "      const {" ++ nl
  ++ "        licenseExpiryDate," ++ nl
  ++ "        insuranceExpiryDate," ++ nl
  ++ "        hourlyRate," ++ nl
  ++ "        bondingAmount," ++ nl
  ++ "        ...rest" ++ nl
  ++ "      } = validatedData;" ++ nl
  ++ nl
  ++ "      const updatePayload: Partial<InsertContractorProfile> = { **rest };"
  ++ nl
  ++ nl.

(** [text.replace(old, new, 1)]: the leftmost occurrence is replaced. *)
Fixpoint replace_first (old new text : string) : string :=
  match Re.drop_prefix old text with
  | Some rest => new ++ rest
  | None =>
      match text with
      | EmptyString => EmptyString
      | String c text' => String c (replace_first old new text')
      end
  end.

(** What the script leaves behind: [SystemExit] with its message and the
    file untouched, or the new text of the file. *)
Inductive patch_outcome : Type :=
| PatchExit (message : string)
| Patched (text : string).

Definition rewrite_contractor_update (text : string) : patch_outcome :=
  if negb (Str.contains old_block text)
  then PatchExit "contractor update block not found"
  else Patched (replace_first old_block new_block text).

(** *** Lines of the generated file *)

(** [line] starts the declaration of the type [type_name]. *)
Definition declares (type_name line : string) : bool :=
  prefix ("export type " ++ type_name ++ " = ") line.

Definition type_name_of (item : string * (string * string)) : string :=
  fst (snd item).

Definition prop_name_of (item : string * (string * string)) : string :=
  snd (snd item).

(** The name a line of a class block declares, if it declares one: what
    the loop of [extract_methods] adds for that line to an empty set. *)
Definition line_method (line : string) : option string :=
  hd_error (methods_step [] line).

(** * Properties *)

(** ** Lists and sets *)

Lemma count_occ_filter (f : string -> bool) (l : list string) (x : string) :
  count_occ string_dec (filter f l) x
  = if f x then count_occ string_dec l x else 0.
Proof.
  induction l as [|a l IH]; simpl.
  - destruct (f x); reflexivity.
  - destruct (f a) eqn:Fa; simpl; destruct (string_dec a x) as [->|Hne];
      rewrite IH; try rewrite Fa; reflexivity.
Qed.

Lemma filter_subseq (f : string -> bool) (l : list string) :
  subseq (filter f l) l.
Proof.
  induction l as [|a l IH]; simpl.
  - constructor.
  - destruct (f a); [apply subseq_keep | apply subseq_skip]; exact IH.
Qed.

Lemma subseq_trans {A : Type} (l1 l2 l3 : list A) :
  subseq l1 l2 -> subseq l2 l3 -> subseq l1 l3.
Proof.
  intros H12 H23. revert l1 H12.
  induction H23 as [|x l2 l3 _ IH|x l2 l3 _ IH]; intros l1 H12.
  - exact H12.
  - constructor. now apply IH.
  - inversion H12; subst.
    + apply subseq_skip. now apply IH.
    + apply subseq_keep. now apply IH.
Qed.

Lemma filtered_length (names : list string) :
  List.length (filtered names)
  = List.length names - count_occ string_dec names "constructor".
Proof.
  unfold filtered.
  induction names as [|a l IH]; simpl; [reflexivity|].
  destruct (string_dec a "constructor") as [->|Hne]; simpl.
  - rewrite IH. reflexivity.
  - apply String.eqb_neq in Hne. rewrite Hne. simpl. rewrite IH.
    pose proof (count_occ_bound string_dec "constructor" l).
    destruct (count_occ string_dec l "constructor"); lia.
Qed.

Lemma nodup_length_le (l : list string) :
  List.length (nodup string_dec l) <= List.length l.
Proof.
  induction l as [|a l IH]; simpl; [lia|].
  destruct (in_dec string_dec a l); simpl; lia.
Qed.

Lemma is_nil_false_iff {A : Type} (l : list A) :
  is_nil l = false <-> l <> [].
Proof. destruct l; simpl; split; congruence. Qed.

Lemma missing_ext (l : list string) (a b : name_set) :
  same_members a b -> missing l a = missing l b.
Proof.
  intros H. unfold missing. apply filter_ext. intros n. now rewrite (H n).
Qed.

Lemma flag_ext (n : string) (a b : name_set) :
  same_members a b -> flag n a = flag n b.
Proof. intros H. unfold flag. now rewrite (H n). Qed.

(** ** The report *)

Lemma summary_in_report sections mem db item line :
  In item sections ->
  In line (summary_lines mem db item) ->
  In line (REPORT_LINES sections mem db).
Proof.
  intros Hi Hl. unfold REPORT_LINES.
  apply in_or_app. right. apply in_or_app. left.
  apply in_flat_map. now exists item.
Qed.

Lemma summary_lines_ext m1 m2 d1 d2 item :
  same_members m1 m2 -> same_members d1 d2 ->
  summary_lines m1 d1 item = summary_lines m2 d2 item.
Proof.
  intros Hm Hd. destruct item as [sec names]. unfold summary_lines.
  now rewrite (missing_ext _ Hm), (missing_ext _ Hd).
Qed.

Lemma detail_lines_ext m1 m2 d1 d2 item :
  same_members m1 m2 -> same_members d1 d2 ->
  detail_lines m1 d1 item = detail_lines m2 d2 item.
Proof.
  intros Hm Hd. destruct item as [sec names]. unfold detail_lines.
  destruct (is_nil (filtered names)); [reflexivity|].
  f_equal. apply map_ext. intros n. unfold method_line.
  now rewrite (flag_ext n Hm), (flag_ext n Hd).
Qed.

Lemma REPORT_LINES_ext sections m1 m2 d1 d2 :
  same_members m1 m2 -> same_members d1 d2 ->
  REPORT_LINES sections m1 d1 = REPORT_LINES sections m2 d2.
Proof.
  intros Hm Hd. unfold REPORT_LINES. f_equal. f_equal; [|f_equal].
  - induction sections as [|it l IH]; simpl; [reflexivity|].
    now rewrite IH, (summary_lines_ext it Hm Hd).
  - induction sections as [|it l IH]; simpl; [reflexivity|].
    now rewrite IH, (detail_lines_ext it Hm Hd).
Qed.

(** ** The generated contracts *)

Lemma distinctb_sound (l : list string) : distinctb l = true -> NoDup l.
Proof.
  induction l as [|x l IH]; simpl; intros H; constructor.
  - apply andb_prop in H. destruct H as [H _].
    intros Hin. apply negb_true_iff in H.
    assert (existsb (String.eqb x) l = true) as E.
    { apply existsb_exists. exists x. split; [exact Hin|apply String.eqb_refl]. }
    congruence.
  - apply IH. now apply andb_prop in H.
Qed.

Lemma contracts_loop_from sections config lines entries :
  fold_left (contracts_step sections) config (lines, entries)
  = ((lines ++ map (decl_of sections)
                   (filter (nonempty_section sections) config))%list,
     (entries ++ map entry_of
                     (filter (nonempty_section sections) config))%list).
Proof.
  revert lines entries.
  induction config as [|[sec [ty prop]] config IH]; intros lines entries; simpl.
  - now rewrite !app_nil_r.
  - assert (nonempty_section sections (sec, (ty, prop))
            = negb (is_nil (filtered (get_or_nil sections sec)))) as Hn
        by reflexivity.
    rewrite Hn.
    destruct (is_nil (filtered (get_or_nil sections sec))) eqn:E; simpl.
    + apply IH.
    + rewrite IH. now rewrite <- !app_assoc.
Qed.

Lemma contracts_loop_eq config sections :
  contracts_loop config sections
  = ((header_lines ++ map (decl_of sections)
                          (filter (nonempty_section sections) config))%list,
     map entry_of (filter (nonempty_section sections) config)).
Proof. unfold contracts_loop. now rewrite contracts_loop_from. Qed.

Lemma nonempty_section_iff sections sec ty prop :
  nonempty_section sections (sec, (ty, prop)) = true <-> has_method sections sec.
Proof.
  unfold nonempty_section, has_method, get_or_nil, filtered. simpl.
  rewrite negb_true_iff, is_nil_false_iff.
  destruct (get sections sec) as [names|].
  - split.
    + intros Hne.
      destruct (filter _ names) as [|n l] eqn:E; [congruence|].
      assert (In n (filter (fun n => negb (n =? "constructor")) names)) as Hin
          by (rewrite E; now left).
      apply filter_In in Hin. destruct Hin as [Hin Hn].
      exists names, n. repeat split; trivial.
      apply negb_true_iff in Hn. now apply String.eqb_neq.
    + intros (names' & n & Hg & Hin & Hn). injection Hg as <-.
      intros E.
      assert (In n (filter (fun n => negb (n =? "constructor")) names)) as Hf.
      { apply filter_In. split; [exact Hin|].
        apply negb_true_iff. now apply String.eqb_neq. }
      rewrite E in Hf. exact Hf.
  - split; [simpl; congruence|].
    intros (names' & n & Hg & _). discriminate.
Qed.

Lemma NoDup_map_filter {A B : Type} (g : A -> B) (f : A -> bool) (l : list A) :
  NoDup (map g l) -> NoDup (map g (filter f l)).
Proof.
  induction l as [|a l IH]; simpl; intros H; [constructor|].
  inversion H as [|? ? Hnin Hnd]; subst.
  destruct (f a); simpl; [constructor|]; auto.
  intros Hin. apply Hnin. apply in_map_iff in Hin.
  destruct Hin as (x & Hx & Hin). apply filter_In in Hin.
  apply in_map_iff. exists x. tauto.
Qed.

Lemma NoDup_map_inj_in {A B : Type} (g : A -> B) (l : list A) (x y : A) :
  NoDup (map g l) -> In x l -> In y l -> g x = g y -> x = y.
Proof.
  induction l as [|a l IH]; simpl; intros H Hx Hy E; [contradiction|].
  inversion H as [|? ? Hnin Hnd]; subst.
  destruct Hx as [->|Hx], Hy as [->|Hy]; trivial.
  - exfalso. apply Hnin. rewrite E. now apply in_map.
  - exfalso. apply Hnin. rewrite <- E. now apply in_map.
  - now apply IH.
Qed.

Lemma entry_in_iff config sections sec ty prop :
  NoDup (map snd config) ->
  In (sec, (ty, prop)) config ->
  In (prop, ty) (repository_entries config sections) <-> has_method sections sec.
Proof.
  intros Hnd Hin. unfold repository_entries.
  rewrite contracts_loop_eq. simpl.
  rewrite <- (nonempty_section_iff sections sec ty prop). split.
  - intros He. apply in_map_iff in He.
    destruct He as ([sec' [ty' prop']] & E & Hf).
    apply filter_In in Hf. destruct Hf as [Hin' Hne].
    unfold entry_of in E. simpl in E. injection E as -> ->.
    assert ((sec', (ty, prop)) = (sec, (ty, prop))) as Heq
        by (apply (NoDup_map_inj_in snd config); trivial).
    injection Heq as ->. exact Hne.
  - intros Hne. apply in_map_iff. exists (sec, (ty, prop)). split; trivial.
    apply filter_In. now split.
Qed.

(** ** Coverage counts and missing lists *)

(** C2, as the code has it.  The summary line of every section reports as
    [total] the number of entries of the section's list other than
    ['constructor'], a name written twice in the section counted twice.
    That number is never below the number of distinct names, and the two
    agree when the section repeats no name. *)
Theorem report_total_counts_entries
        (sections : odict) (mem_methods db_methods : name_set)
        (sec : string) (names : list string) :
  In (sec, names) sections ->
  let total := List.length names - count_occ string_dec names "constructor" in
  List.length (filtered names) = total
  /\ In (count_line sec total
                    (List.length (missing (filtered names) mem_methods))
                    (List.length (missing (filtered names) db_methods)))
        (REPORT_LINES sections mem_methods db_methods)
  /\ List.length (nodup string_dec (filtered names)) <= total
  /\ (NoDup (filtered names) ->
      total = List.length (nodup string_dec (filtered names))).
Proof.
  intros Hin total. subst total. rewrite <- filtered_length.
  split; [reflexivity|]. split; [|split].
  - apply summary_in_report with (item := (sec, names)); [exact Hin|]. simpl. now left.
  - apply nodup_length_le.
  - intros Hnd. now rewrite (nodup_fixed_point string_dec Hnd).
Qed.

Lemma report_total_counts_entries_witness :
  let names := ["getUser"; "constructor"; "getUser"] in
  List.length (filtered names) = 2
  /\ In "[Users] total=2 missing_mem=0 missing_db=2"
        (REPORT_LINES [("Users", names)] ["getUser"] [])
  /\ List.length (nodup string_dec (filtered names)) <= 2
  /\ (NoDup (filtered names) ->
      2 = List.length (nodup string_dec (filtered names))).
Proof.
  exact (@report_total_counts_entries
           [("Users", ["getUser"; "constructor"; "getUser"])] ["getUser"] []
           "Users" ["getUser"; "constructor"; "getUser"] (or_introl eq_refl)).
Defined.

(** C2 fails as stated: an interface that declares [find] twice (two
    overloads) in one section is reported with [total=2], while the section
    has one distinct method name. *)
Lemma report_total_not_distinct :
  let interface_text :=
    "export interface IStorage {" ++ nl
    ++ "  find(id: string): Promise<User>;" ++ nl
    ++ "  find(id: number): Promise<User>;" ++ nl ++ "}" in
  let body := nl ++ "  find(id: string): Promise<User>;" ++ nl
                 ++ "  find(id: number): Promise<User>;" in
  sections_of_body body = [("General", ["find"; "find"])]
  /\ List.length (nodup string_dec (filtered ["find"; "find"])) = 1
  /\ exists contracts,
      main interface_text ""
      = Written ("SECTION_SUMMARY" ++ nl
                 ++ "[General] total=2 missing_mem=2 missing_db=2" ++ nl
                 ++ "  missing_mem_list=find, find" ++ nl
                 ++ "  missing_db_list=find, find" ++ nl ++ nl
                 ++ "DETAILED_METHODS" ++ nl ++ "## General" ++ nl
                 ++ "- find: inMem=N, inDb=N" ++ nl
                 ++ "- find: inMem=N, inDb=N")
                contracts.
Proof.
  split; [vm_compute; reflexivity|]. split; [vm_compute; reflexivity|].
  eexists. vm_compute. reflexivity.
Qed.

(** C6.  For every section and every vocabulary, the missing list is the
    section's list with the constructor entry and the names of the
    vocabulary left out and everything else kept, in the section's order:
    it is a subsequence of the section's list in which a name occurs as
    often as in the section when it is neither ['constructor'] nor in the
    vocabulary, and not at all otherwise.  The report gives its length in
    the counts line and, when it is not empty, the list itself.  Methods
    [a, b, c] against the vocabulary [{a, c}] give [[b]]. *)
Theorem missing_list_exact
        (sections : odict) (mem_methods db_methods : name_set)
        (sec : string) (names : list string) :
  In (sec, names) sections ->
  let missing_mem := missing (filtered names) mem_methods in
  let missing_db := missing (filtered names) db_methods in
  (forall vocabulary,
      let m := missing (filtered names) vocabulary in
      subseq m names
      /\ forall n,
          count_occ string_dec m n
          = if (n =? "constructor") || set_mem n vocabulary then 0
            else count_occ string_dec names n)
  /\ In (count_line sec (List.length (filtered names))
                    (List.length missing_mem) (List.length missing_db))
        (REPORT_LINES sections mem_methods db_methods)
  /\ (missing_mem <> [] ->
      In ("  missing_mem_list=" ++ Str.join ", " missing_mem)
         (REPORT_LINES sections mem_methods db_methods))
  /\ (missing_db <> [] ->
      In ("  missing_db_list=" ++ Str.join ", " missing_db)
         (REPORT_LINES sections mem_methods db_methods))
  /\ missing (filtered ["a"; "b"; "c"]) ["a"; "c"] = ["b"].
Proof.
  intros Hin missing_mem missing_db. split; [|split; [|split; [|split]]].
  - intros vocabulary m. split.
    + apply (subseq_trans (l2 := filtered names)); apply filter_subseq.
    + intros n. unfold m, missing, filtered.
      rewrite !count_occ_filter.
      destruct (set_mem n vocabulary); simpl.
      * now rewrite orb_true_r.
      * rewrite orb_false_r. now destruct (n =? "constructor").
  - apply summary_in_report with (item := (sec, names)); [exact Hin|]. simpl. now left.
  - intros Hne. apply summary_in_report with (item := (sec, names)); [exact Hin|].
    simpl. right. fold missing_mem.
    apply is_nil_false_iff in Hne. rewrite Hne. now left.
  - intros Hne. apply summary_in_report with (item := (sec, names)); [exact Hin|].
    simpl. right. fold missing_mem missing_db. apply in_or_app. right.
    apply is_nil_false_iff in Hne. rewrite Hne. now left.
  - reflexivity.
Qed.

Lemma missing_list_exact_witness :
  missing (filtered ["a"; "constructor"; "b"; "c"]) ["a"; "c"] = ["b"]
  /\ In "[Users] total=3 missing_mem=1 missing_db=3"
        (REPORT_LINES [("Users", ["a"; "constructor"; "b"; "c"])] ["a"; "c"] [])
  /\ In "  missing_mem_list=b"
        (REPORT_LINES [("Users", ["a"; "constructor"; "b"; "c"])] ["a"; "c"] [])
  /\ In "  missing_db_list=a, b, c"
        (REPORT_LINES [("Users", ["a"; "constructor"; "b"; "c"])] ["a"; "c"] []).
Proof.
  pose proof (@missing_list_exact
                [("Users", ["a"; "constructor"; "b"; "c"])] ["a"; "c"] []
                "Users" ["a"; "constructor"; "b"; "c"] (or_introl eq_refl))
    as (_ & Hc & Hm & Hd & _).
  split; [reflexivity|]. split; [exact Hc|]. split.
  - apply Hm. discriminate.
  - apply Hd. discriminate.
Defined.

(** C8.  The two texts a run writes depend on the vocabularies only through
    membership: with the interface text and the configuration fixed, any
    two runs whose sets hold the same names, in whatever order the sets
    keep them, write the same report and the same contracts, character for
    character, and these are the texts [main] writes.  The sections and the
    configuration are walked in list order. *)
Theorem outputs_deterministic
        (interface_text db_text : string) (m : list string * string)
        (mem1 db1 mem2 db2 : name_set) :
  Re.search interface_re interface_text = Some m ->
  same_members mem1 (extract_methods interface_text "MemStorage") ->
  same_members mem2 (extract_methods interface_text "MemStorage") ->
  same_members db1 (extract_methods db_text "DbStorage") ->
  same_members db2 (extract_methods db_text "DbStorage") ->
  let sections := sections_of_body (Re.group1 m) in
  write_outputs sections mem1 db1 = write_outputs sections mem2 db2
  /\ write_outputs sections mem1 db1 = main interface_text db_text.
Proof.
  intros Hs Hm1 Hm2 Hd1 Hd2 sections. unfold main. rewrite Hs.
  fold sections. unfold write_outputs.
  rewrite (REPORT_LINES_ext sections Hm1 Hd1).
  rewrite (REPORT_LINES_ext sections Hm2 Hd2). split; reflexivity.
Qed.

Lemma outputs_deterministic_witness :
  let body :=
    nl ++ "  // Users" ++ nl
    ++ "  getUser(id: string): Promise<User>;" ++ nl
    ++ "  createUser(u: InsertUser): Promise<User>;" ++ nl ++ "}" ++ nl
    ++ "export class MemStorage implements IStorage {" ++ nl
    ++ "  async getUser(id: string) {" ++ nl ++ "  }" ++ nl
    ++ "  async createUser(u: InsertUser) {" ++ nl ++ "  }" in
  let interface_text := "export interface IStorage {" ++ body ++ nl ++ "}" in
  let db_text :=
    "export class DbStorage implements IStorage {" ++ nl
    ++ "  async getUser(id: string) {" ++ nl ++ "  }" ++ nl ++ "}" in
  extract_methods interface_text "MemStorage" = ["getUser"; "createUser"]
  /\ extract_methods db_text "DbStorage" = ["getUser"]
  /\ write_outputs (sections_of_body body)
                    ["getUser"; "createUser"] ["getUser"]
     = write_outputs (sections_of_body body)
                     ["createUser"; "getUser"] ["getUser"; "getUser"]
  /\ write_outputs (sections_of_body body)
                    ["getUser"; "createUser"] ["getUser"]
     = main interface_text db_text.
Proof.
  intros body interface_text db_text.
  split; [vm_compute; reflexivity|]. split; [vm_compute; reflexivity|].
  apply (@outputs_deterministic interface_text db_text ([body], "")
           ["getUser"; "createUser"] ["getUser"]
           ["createUser"; "getUser"] ["getUser"; "getUser"]).
  - vm_compute. reflexivity.
  - intros n. vm_compute. reflexivity.
  - intros n. change (extract_methods interface_text "MemStorage")
      with ["getUser"; "createUser"]. unfold set_mem. simpl.
    destruct (n =? "getUser"), (n =? "createUser"); reflexivity.
  - intros n. vm_compute. reflexivity.
  - intros n. change (extract_methods db_text "DbStorage") with ["getUser"].
    unfold set_mem. simpl. destruct (n =? "getUser"); reflexivity.
Defined.

(** ** The configuration *)

Lemma SECTION_CONFIG_pairs_distinct : NoDup (map snd SECTION_CONFIG).
Proof.
  apply (NoDup_map_inv (fun p : string * string => fst p)).
  rewrite map_map. apply distinctb_sound. vm_compute. reflexivity.
Qed.

(** ** The section table *)

Lemma set_mem_true_iff (k : string) (l : list string) :
  set_mem k l = true <-> In k l.
Proof.
  unfold set_mem. rewrite existsb_exists. split.
  - intros (x & Hin & E). apply String.eqb_eq in E. now subst.
  - intros Hin. exists k. split; [exact Hin|apply String.eqb_refl].
Qed.

Lemma set_mem_app (k : string) (l1 l2 : list string) :
  set_mem k (l1 ++ l2)%list = set_mem k l1 || set_mem k l2.
Proof. unfold set_mem. apply existsb_app. Qed.

Lemma get_some_key (d : odict) (k : string) (v : list string) :
  get d k = Some v -> set_mem k (keys d) = true.
Proof.
  induction d as [|[k' v'] d IH]; simpl; [discriminate|].
  rewrite (String.eqb_sym k k').
  destruct (k' =? k); simpl; [reflexivity|exact IH].
Qed.

Lemma get_none_key (d : odict) (k : string) :
  get d k = None <-> set_mem k (keys d) = false.
Proof.
  induction d as [|[k' v'] d IH]; simpl; [tauto|].
  rewrite (String.eqb_sym k k').
  destruct (k' =? k); simpl; [split; discriminate|exact IH].
Qed.

Lemma setdefault_present (d : odict) (k : string) (v : list string) :
  get d k = Some v -> setdefault d k = d.
Proof.
  induction d as [|[k' v'] d IH]; simpl; [discriminate|].
  destruct (k' =? k); [reflexivity|]. intros H. now rewrite IH.
Qed.

Lemma keys_setdefault (d : odict) (k : string) :
  keys (setdefault d k)
  = if set_mem k (keys d) then keys d else (keys d ++ [k])%list.
Proof.
  induction d as [|[k' v'] d IH]; simpl; [reflexivity|].
  rewrite (String.eqb_sym k k').
  destruct (k' =? k); simpl; [reflexivity|].
  rewrite IH. now destruct (set_mem k (keys d)).
Qed.

Lemma keys_setdefault_append (d : odict) (k n : string) :
  keys (setdefault_append d k n) = keys (setdefault d k).
Proof.
  induction d as [|[k' v'] d IH]; simpl; [reflexivity|].
  destruct (k' =? k); simpl; [reflexivity|]. now rewrite IH.
Qed.

Lemma get_setdefault (d : odict) (k k' : string) :
  get_or_nil (setdefault d k) k' = get_or_nil d k'.
Proof.
  unfold get_or_nil.
  induction d as [|[k0 v0] d IH]; simpl.
  - now destruct (k =? k').
  - destruct (k0 =? k) eqn:E; simpl; [reflexivity|].
    destruct (k0 =? k'); [reflexivity|exact IH].
Qed.

Lemma get_setdefault_append (d : odict) (k n k' : string) :
  get (setdefault_append d k n) k'
  = if k =? k' then Some (get_or_nil d k ++ [n])%list else get d k'.
Proof.
  unfold get_or_nil.
  induction d as [|[k0 v0] d IH]; simpl.
  - now destruct (k =? k').
  - destruct (k0 =? k) eqn:E; simpl.
    + apply String.eqb_eq in E. subst k0. now destruct (k =? k').
    + destruct (k0 =? k') eqn:E'; [|exact IH].
      apply String.eqb_eq in E'. subst k0.
      rewrite (String.eqb_sym k k'), E. reflexivity.
Qed.

Lemma total_names_setdefault (d : odict) (k : string) :
  total_names (setdefault d k) = total_names d.
Proof.
  unfold total_names.
  induction d as [|[k0 v0] d IH]; simpl; [reflexivity|].
  destruct (k0 =? k); simpl; [reflexivity|].
  now rewrite !length_app, IH.
Qed.

Lemma total_names_setdefault_append (d : odict) (k n : string) :
  total_names (setdefault_append d k n) = S (total_names d).
Proof.
  unfold total_names.
  induction d as [|[k0 v0] d IH]; simpl; [reflexivity|].
  destruct (k0 =? k); simpl; rewrite !length_app; simpl.
  - lia.
  - rewrite IH. lia.
Qed.

Lemma NoDup_keys_setdefault (d : odict) (k : string) :
  NoDup (keys d) -> NoDup (keys (setdefault d k)).
Proof.
  intros H. rewrite keys_setdefault.
  destruct (set_mem k (keys d)) eqn:E; [exact H|].
  apply NoDup_app; [exact H | repeat constructor; intros [] | ].
  intros x Hx [<-|[]]. apply set_mem_true_iff in Hx. congruence.
Qed.

(** ** The section loop *)

Lemma sections_step_cases (sections : odict) (current raw : string) :
  sections_step (sections, current) raw
  = match line_title raw with
    | Some t => (setdefault sections t, t)
    | None =>
        match line_name raw with
        | Some n => (setdefault_append sections current n, current)
        | None => (sections, current)
        end
    end.
Proof.
  unfold sections_step, line_title, line_name.
  destruct (Str.is_empty (Str.strip raw)); [reflexivity|].
  destruct (Str.startswith "//" (Str.strip raw)); [reflexivity|].
  destruct (Re.match_ signature_re (Str.strip raw)); reflexivity.
Qed.

Lemma title_excludes_name (raw t : string) :
  line_title raw = Some t -> line_name raw = None.
Proof.
  unfold line_title, line_name.
  destruct (Str.is_empty (Str.strip raw)); [discriminate|].
  destruct (Str.startswith "//" (Str.strip raw)); [reflexivity|discriminate].
Qed.

Lemma nearest_marker_snoc (before : list string) (raw : string) :
  nearest_marker (before ++ [raw])
  = match line_title raw with
    | Some t => t
    | None => nearest_marker before
    end.
Proof.
  unfold nearest_marker. rewrite rev_app_distr. simpl.
  now destruct (line_title raw).
Qed.

Lemma under_app (t : string) (before l1 l2 : list string) :
  under t before (l1 ++ l2)
  = (under t before l1 ++ under t (before ++ l1) l2)%list.
Proof.
  revert before. induction l1 as [|raw l1 IH]; intros before; simpl.
  - now rewrite app_nil_r.
  - rewrite IH, <- !app_assoc. reflexivity.
Qed.

Lemma titles_app (before l1 l2 : list string) :
  titles before (l1 ++ l2)
  = (titles before l1 ++ titles (before ++ l1) l2)%list.
Proof.
  revert before. induction l1 as [|raw l1 IH]; intros before; simpl.
  - now rewrite app_nil_r.
  - rewrite IH, <- !app_assoc. reflexivity.
Qed.

Lemma set_mem_filter_neq (x a : string) (l : list string) :
  set_mem x (filter (fun y => negb (y =? a)) l)
  = negb (x =? a) && set_mem x l.
Proof.
  unfold set_mem. induction l as [|b l IH]; simpl.
  - now rewrite andb_false_r.
  - destruct (b =? a) eqn:Eba; simpl; rewrite IH.
    + apply String.eqb_eq in Eba. subst b.
      destruct (x =? a); reflexivity.
    + destruct (x =? b) eqn:Exb; simpl; [|reflexivity].
      apply String.eqb_eq in Exb. subst b. now rewrite Eba.
Qed.

Lemma set_mem_first_seen (x : string) (l : list string) :
  set_mem x (first_seen l) = set_mem x l.
Proof.
  induction l as [|a l IH]; [reflexivity|].
  simpl first_seen. unfold set_mem at 1 2. simpl.
  fold (set_mem x (filter (fun y => negb (y =? a)) (first_seen l))).
  fold (set_mem x l).
  rewrite set_mem_filter_neq, IH.
  destruct (x =? a); reflexivity.
Qed.

Lemma first_seen_snoc (l : list string) (x : string) :
  first_seen (l ++ [x])
  = if set_mem x l then first_seen l else (first_seen l ++ [x])%list.
Proof.
  induction l as [|a l IH]; [reflexivity|].
  simpl. rewrite IH. unfold set_mem at 2. simpl. fold (set_mem x l).
  destruct (x =? a) eqn:E; simpl.
  - apply String.eqb_eq in E. subst a.
    destruct (set_mem x l); [reflexivity|].
    rewrite filter_app. simpl. rewrite String.eqb_refl. simpl.
    now rewrite app_nil_r.
  - destruct (set_mem x l); [reflexivity|].
    rewrite filter_app. simpl. now rewrite E.
Qed.

Lemma NoDup_first_seen (l : list string) : NoDup (first_seen l).
Proof.
  induction l as [|a l IH]; simpl; constructor.
  - intros Hin. apply filter_In in Hin. destruct Hin as [_ H].
    now rewrite String.eqb_refl in H.
  - now apply NoDup_filter.
Qed.

Lemma loop_inv_step (before : list string) (st : sec_state) (raw : string) :
  loop_inv before st -> loop_inv (before ++ [raw]) (sections_step st raw).
Proof.
  destruct st as [sections current].
  intros (Hcur & Hkeys & Hget & Htot). simpl in Hcur, Hkeys, Hget, Htot.
  rewrite sections_step_cases. unfold loop_inv.
  rewrite nearest_marker_snoc, titles_app, filter_app, length_app.
  simpl titles. simpl filter. rewrite app_nil_r.
  assert (is_signature raw = is_some (line_name raw)) as Hsig by reflexivity.
  rewrite Hsig. clear Hsig. unfold title_of.
  destruct (line_title raw) as [t|] eqn:Et.
  - rewrite (title_excludes_name _ Et). simpl.
    split; [reflexivity|]. split; [|split].
    + rewrite keys_setdefault, first_seen_snoc, Hkeys, set_mem_first_seen.
      reflexivity.
    + intros t'. rewrite get_setdefault, under_app, Hget. simpl.
      unfold contribution. rewrite (title_excludes_name _ Et).
      now rewrite app_nil_r.
    + rewrite total_names_setdefault, Htot. simpl. lia.
  - destruct (line_name raw) as [n|] eqn:En; simpl.
    + split; [exact Hcur|]. split; [|split].
      * rewrite keys_setdefault_append, keys_setdefault, first_seen_snoc.
        rewrite Hkeys, set_mem_first_seen, Hcur. reflexivity.
      * intros t'. rewrite under_app. simpl.
        unfold contribution. rewrite En, app_nil_r, <- Hcur.
        unfold get_or_nil at 1. rewrite get_setdefault_append.
        destruct (current =? t') eqn:E.
        -- apply String.eqb_eq in E. subst t'. now rewrite Hget.
        -- fold (get_or_nil sections t'). now rewrite Hget, app_nil_r.
      * rewrite total_names_setdefault_append, Htot. simpl. lia.
    + rewrite app_nil_r. split; [exact Hcur|]. split; [exact Hkeys|]. split.
      * intros t'. rewrite under_app. simpl. unfold contribution.
        rewrite En. now rewrite !app_nil_r.
      * rewrite Htot. simpl. lia.
Qed.

Lemma loop_inv_fold (lines before : list string) (st : sec_state) :
  loop_inv before st ->
  loop_inv (before ++ lines) (fold_left sections_step lines st).
Proof.
  revert before st. induction lines as [|raw lines IH]; intros before st H.
  - now rewrite app_nil_r.
  - simpl. replace (before ++ raw :: lines)%list
      with ((before ++ [raw]) ++ lines)%list by now rewrite <- app_assoc.
    apply IH. now apply loop_inv_step.
Qed.

Lemma loop_inv_sections (lines : list string) :
  loop_inv lines (sections_loop lines).
Proof.
  unfold sections_loop. apply (loop_inv_fold lines (before := [])).
  repeat split.
Qed.

Lemma under_In (t n : string) (before lines : list string) :
  In n (under t before lines)
  <-> exists l1 raw l2,
      lines = (l1 ++ raw :: l2)%list /\ line_name raw = Some n
      /\ nearest_marker (before ++ l1) = t.
Proof.
  revert before. induction lines as [|raw lines IH]; intros before; simpl.
  - split; [contradiction|]. intros (l1 & r & l2 & E & _).
    now destruct l1.
  - rewrite in_app_iff, IH. split.
    + intros [Hc|(l1 & r & l2 & E & Hn & Ht)].
      * exists [], raw, lines. unfold contribution in Hc.
        destruct (line_name raw) as [m|]; [|contradiction].
        destruct (nearest_marker before =? t) eqn:Eq; [|contradiction].
        destruct Hc as [->|[]]. apply String.eqb_eq in Eq.
        rewrite app_nil_r. auto.
      * exists (raw :: l1), r, l2. rewrite <- app_assoc in Ht.
        simpl. now rewrite E.
    + intros (l1 & r & l2 & E & Hn & Ht). destruct l1 as [|r0 l1].
      * simpl in E. injection E as -> ->. left.
        unfold contribution. rewrite Hn. rewrite app_nil_r in Ht.
        rewrite Ht, String.eqb_refl. now left.
      * simpl in E. injection E as -> ->. right.
        exists l1, r, l2. rewrite <- app_assoc. auto.
Qed.

Lemma get_or_nil_In_key (d : odict) (k n : string) :
  In n (get_or_nil d k) -> In k (keys d).
Proof.
  unfold get_or_nil. destruct (get d k) as [v|] eqn:E; [|contradiction].
  intros _. apply set_mem_true_iff. exact (get_some_key _ _ E).
Qed.

(** ** Partition of the interface's methods into sections *)

Lemma same_position {A : Type} (l1 l2 l1' l2' : list A) (a a' : A) :
  (l1 ++ a :: l2 = l1' ++ a' :: l2')%list ->
  l1 = l1' \/ In a' l1 \/ In a' l2.
Proof.
  revert l1'. induction l1 as [|x l1 IH]; intros l1' E.
  - destruct l1' as [|y l1']; [now left|].
    simpl in E. injection E as -> ->. right. right.
    apply in_or_app. right. now left.
  - destruct l1' as [|y l1'].
    + simpl in E. injection E as -> _. right. left. now left.
    + simpl in E. injection E as -> E.
      destruct (IH l1' E) as [->|[H|H]]; [now left| |now right; right].
      right. left. now right.
Qed.

Lemma under_no_name (t n : string) (before lines : list string) :
  (forall raw, In raw lines -> line_name raw <> Some n) ->
  ~ In n (under t before lines).
Proof.
  intros H Hin. apply under_In in Hin.
  destruct Hin as (l1 & raw & l2 & -> & Hn & _).
  apply (H raw); [|exact Hn]. apply in_or_app. right. now left.
Qed.

Lemma count_under_single (t n : string) (before l1 l2 : list string)
      (raw : string) :
  line_name raw = Some n -> nearest_marker (before ++ l1) = t ->
  (forall raw', In raw' (l1 ++ l2)%list -> line_name raw' <> Some n) ->
  count_occ string_dec (under t before (l1 ++ raw :: l2)) n = 1.
Proof.
  intros Hn Ht Honly.
  assert (forall b, count_occ string_dec (under t b l1) n = 0) as H1.
  { intros b. apply count_occ_not_In, under_no_name.
    intros raw' Hin. apply Honly. apply in_or_app. now left. }
  assert (forall b, count_occ string_dec (under t b l2) n = 0) as H2.
  { intros b. apply count_occ_not_In, under_no_name.
    intros raw' Hin. apply Honly. apply in_or_app. now right. }
  assert (count_occ string_dec (contribution t (before ++ l1) raw) n = 1)
    as H3.
  { unfold contribution. rewrite Hn, Ht, String.eqb_refl. simpl.
    destruct (string_dec n n); [reflexivity|congruence]. }
  rewrite under_app. cbn [under]. rewrite !count_occ_app, H1, H2, H3.
  reflexivity.
Qed.

(** C5, as the code has it.  For every interface body, a method name being
    taken once for each signature line it is extracted from: the section
    table has every title once; the list of a section is, in source order,
    the names of the signature lines whose nearest preceding marker has
    that title (['General'] when no marker precedes); so the name of every
    signature line is in the list of the section of its nearest preceding
    marker, every name in a list comes from such a line, and the lists
    together have as many names as the body has signature lines: none is
    lost and none is entered twice.  A name that the body has on one
    signature line only is in one section's list only, once; a name
    written on signature lines under different markers is in the list of
    each of them. *)
Theorem sections_partition (body : string) :
  let lines := Str.split Str.newline body in
  let sections := sections_of_body body in
  NoDup (keys sections)
  /\ (forall t, get_or_nil sections t = under t [] lines)
  /\ total_names sections = List.length (filter is_signature lines)
  /\ (forall l1 raw l2 n,
         lines = (l1 ++ raw :: l2)%list -> line_name raw = Some n ->
         In (nearest_marker l1) (keys sections)
         /\ In n (get_or_nil sections (nearest_marker l1)))
  /\ (forall t n,
         In n (get_or_nil sections t) ->
         exists l1 raw l2,
           lines = (l1 ++ raw :: l2)%list /\ line_name raw = Some n
           /\ nearest_marker l1 = t)
  /\ (forall l1 raw l2 n,
         lines = (l1 ++ raw :: l2)%list -> line_name raw = Some n ->
         (forall raw', In raw' (l1 ++ l2)%list -> line_name raw' <> Some n) ->
         count_occ string_dec (get_or_nil sections (nearest_marker l1)) n = 1
         /\ forall t, In n (get_or_nil sections t) -> t = nearest_marker l1).
Proof.
  intros lines sections.
  destruct (loop_inv_sections lines) as (_ & Hkeys & Hget & Htot).
  fold (sections_of_body body) in *.
  change (fst (sections_loop lines)) with sections in *.
  split; [|split; [exact Hget|split; [exact Htot|split; [|split]]]].
  - rewrite Hkeys. apply NoDup_first_seen.
  - intros l1 raw l2 n E Hn.
    assert (In n (get_or_nil sections (nearest_marker l1))) as Hin.
    { rewrite Hget. apply under_In. now exists l1, raw, l2. }
    split; [|exact Hin]. exact (get_or_nil_In_key _ _ _ Hin).
  - intros t n Hin. rewrite Hget in Hin. apply under_In in Hin. exact Hin.
  - intros l1 raw l2 n E Hn Honly. split.
    + rewrite Hget, E.
      apply count_under_single; [exact Hn|reflexivity|exact Honly].
    + intros t Hin. rewrite Hget in Hin. apply under_In in Hin.
      destruct Hin as (l1' & raw' & l2' & E' & Hn' & Ht).
      rewrite E in E'.
      destruct (same_position l1 l2 l1' l2' raw raw' E') as [->|[H|H]].
      * now rewrite <- Ht.
      * exfalso. apply (Honly raw'); [|exact Hn'].
        apply in_or_app. now left.
      * exfalso. apply (Honly raw'); [|exact Hn'].
        apply in_or_app. now right.
Qed.

(** C5 fails as stated: with the same signature under two markers, the
    name is in the lists of both sections. *)
Lemma sections_name_in_two_sections :
  let body := "// A" ++ nl ++ "foo(): void;" ++ nl
              ++ "// B" ++ nl ++ "foo(): void;" in
  sections_of_body body = [("A", ["foo"]); ("B", ["foo"])]
  /\ In "foo" (get_or_nil (sections_of_body body) "A")
  /\ In "foo" (get_or_nil (sections_of_body body) "B")
  /\ "A" <> "B".
Proof.
  intros body.
  assert (sections_of_body body = [("A", ["foo"]); ("B", ["foo"])]) as E
      by (vm_compute; reflexivity).
  rewrite E. split; [reflexivity|]. split; [now left|].
  split; [now left|discriminate].
Qed.

Lemma sections_partition_witness :
  let body := "  ping(): void;" ++ nl ++ "  // Users" ++ nl
              ++ "  getUser(id: string): Promise<User>;" ++ nl
              ++ "  // Invoices" ++ nl ++ "  getInvoice(id: string): Promise<Invoice>;" in
  sections_of_body body
  = [("General", ["ping"]); ("Users", ["getUser"]); ("Invoices", ["getInvoice"])]
  /\ In "Users" (keys (sections_of_body body))
  /\ In "getUser" (get_or_nil (sections_of_body body) "Users").
Proof.
  intros body. split; [vm_compute; reflexivity|].
  pose proof (sections_partition body) as (_ & _ & _ & H & _).
  apply (H ["  ping(): void;"; "  // Users"]
           "  getUser(id: string): Promise<User>;"
           ["  // Invoices"; "  getInvoice(id: string): Promise<Invoice>;"]
           "getUser"); vm_compute; reflexivity.
Defined.

(** ** Splitting a text into lines *)

Lemma split_not_nil (c : ascii) (s : string) : Str.split c s <> [].
Proof.
  destruct s as [|a s]; simpl; [discriminate|].
  destruct (Ascii.eqb a c); [discriminate|].
  destruct (Str.split c s); discriminate.
Qed.

Lemma split_app_sep (c : ascii) (a b : string) :
  Str.split c (a ++ String c b) = (Str.split c a ++ Str.split c b)%list.
Proof.
  induction a as [|x a IH]; simpl.
  - now rewrite Ascii.eqb_refl.
  - destruct (Ascii.eqb x c); [now rewrite IH|].
    rewrite IH. pose proof (split_not_nil c a) as Hne.
    destruct (Str.split c a); [congruence|reflexivity].
Qed.

Lemma split_no_sep (c : ascii) (s : string) :
  Str.forallb (fun x => negb (Ascii.eqb x c)) s = true ->
  Str.split c s = [s].
Proof.
  induction s as [|x s IH]; simpl; [reflexivity|].
  intros H. apply andb_prop in H. destruct H as [Hx Hs].
  apply negb_true_iff in Hx. rewrite Hx, (IH Hs). reflexivity.
Qed.

Lemma split_snoc_line (body raw : string) :
  no_newline raw = true ->
  Str.split Str.newline (body ++ nl ++ raw)
  = (Str.split Str.newline body ++ [raw])%list.
Proof.
  intros H. change (nl ++ raw) with (String Str.newline raw).
  now rewrite split_app_sep, (split_no_sep _ _ H).
Qed.

Lemma append_assoc (a b c : string) : (a ++ b) ++ c = a ++ b ++ c.
Proof.
  induction a as [|x a IH]; [reflexivity|].
  change (String x ((a ++ b) ++ c) = String x (a ++ b ++ c)). now rewrite IH.
Qed.

Lemma sections_loop_snoc (lines : list string) (raw : string) :
  sections_loop (lines ++ [raw])
  = sections_step (sections_loop lines) raw.
Proof. unfold sections_loop. now rewrite fold_left_app. Qed.

(** ** Repeated section markers *)

(** C9.  When a marker line repeats a title that already has an entry, the
    table is left as it is: no entry is added and none is reset.  A
    signature line that follows is appended to the list of that entry,
    which keeps its place and the names it had; the other entries do not
    change.  In every table a title occurs once, and the titles stand in the
    order in which the body first refers to them. *)
Theorem repeated_marker_reuses_entry
        (body raw raw' t n : string) (old : list string) :
  no_newline raw = true -> no_newline raw' = true ->
  line_title raw = Some t -> line_name raw' = Some n ->
  get (sections_of_body body) t = Some old ->
  let after := sections_of_body (body ++ nl ++ raw ++ nl ++ raw') in
  sections_of_body (body ++ nl ++ raw) = sections_of_body body
  /\ keys after = keys (sections_of_body body)
  /\ get after t = Some (old ++ [n])%list
  /\ (forall t', t' <> t -> get after t' = get (sections_of_body body) t')
  /\ NoDup (keys after)
  /\ keys after
     = first_seen (titles [] (Str.split Str.newline
                                        (body ++ nl ++ raw ++ nl ++ raw'))).
Proof.
  intros Hraw Hraw' Ht Hn Hold after.
  assert (sections_loop (Str.split Str.newline body ++ [raw])
          = (sections_of_body body, t)) as Hstep.
  { rewrite sections_loop_snoc. unfold sections_of_body.
    destruct (sections_loop (Str.split Str.newline body)) as [d cur] eqn:E.
    rewrite sections_step_cases, Ht. simpl.
    unfold sections_of_body in Hold. rewrite E in Hold. simpl in Hold.
    now rewrite (setdefault_present _ _ Hold). }
  assert (line_title raw' = None) as Ht'.
  { destruct (line_title raw') eqn:E; [|reflexivity].
    rewrite (title_excludes_name _ E) in Hn. discriminate. }
  assert (after = setdefault_append (sections_of_body body) t n) as Hafter.
  { unfold after, sections_of_body at 1.
    replace (body ++ nl ++ raw ++ nl ++ raw')
      with ((body ++ nl ++ raw) ++ nl ++ raw').
    - rewrite (split_snoc_line _ _ Hraw'), (split_snoc_line _ _ Hraw).
      rewrite sections_loop_snoc, Hstep, sections_step_cases, Ht', Hn.
      reflexivity.
    - now rewrite !append_assoc. }
  pose proof (loop_inv_sections
                (Str.split Str.newline (body ++ nl ++ raw ++ nl ++ raw')))
    as (_ & Hkeys & _).
  fold (sections_of_body (body ++ nl ++ raw ++ nl ++ raw')) in Hkeys.
  fold after in Hkeys.
  split; [|split; [|split; [|split; [|split]]]].
  - unfold sections_of_body at 1.
    now rewrite (split_snoc_line _ _ Hraw), Hstep.
  - rewrite Hafter, keys_setdefault_append, keys_setdefault.
    now rewrite (get_some_key _ _ Hold).
  - rewrite Hafter, get_setdefault_append, String.eqb_refl.
    unfold get_or_nil. now rewrite Hold.
  - intros t' Hne. rewrite Hafter, get_setdefault_append.
    apply not_eq_sym in Hne. apply String.eqb_neq in Hne. now rewrite Hne.
  - rewrite Hkeys. apply NoDup_first_seen.
  - exact Hkeys.
Qed.

Lemma repeated_marker_reuses_entry_witness :
  let body := "// Users" ++ nl ++ "getUser(id: string): Promise<User>;" ++ nl
              ++ "// Invoices" ++ nl ++ "getInvoice(id: string): Promise<Invoice>;" in
  let after := sections_of_body
                 (body ++ nl ++ "  // Users" ++ nl ++ "  createUser(u: InsertUser): Promise<User>;") in
  sections_of_body (body ++ nl ++ "  // Users") = sections_of_body body
  /\ keys after = ["Users"; "Invoices"]
  /\ get after "Users" = Some ["getUser"; "createUser"]
  /\ get after "Invoices" = Some ["getInvoice"].
Proof.
  intros body after.
  destruct (@repeated_marker_reuses_entry
              body "  // Users" "  createUser(u: InsertUser): Promise<User>;"
              "Users" "createUser" ["getUser"])
    as (H1 & H2 & H3 & H4 & _); try (vm_compute; reflexivity).
  split; [exact H1|].
  split; [etransitivity; [exact H2|vm_compute; reflexivity]|].
  split; [exact H3|].
  etransitivity; [apply H4; discriminate|vm_compute; reflexivity].
Defined.

(** ** Texts *)

Lemma append_nil_r (s : string) : s ++ "" = s.
Proof. induction s as [|c s IH]; simpl; [reflexivity|now rewrite IH]. Qed.

Lemma length_append (a b : string) :
  String.length (a ++ b) = String.length a + String.length b.
Proof. induction a as [|c a IH]; simpl; [reflexivity|now rewrite IH]. Qed.

Lemma substring_prefix (a b : string) :
  substring 0 (String.length (a ++ b) - String.length b) (a ++ b) = a.
Proof.
  rewrite length_append.
  replace (String.length a + String.length b - String.length b)
    with (String.length a) by lia.
  induction a as [|c a IH]; simpl.
  - now destruct b.
  - now rewrite IH.
Qed.

Lemma is_suffix_refl (s : string) : is_suffix s s.
Proof. now exists "". Qed.

Lemma is_suffix_trans (a b c : string) :
  is_suffix a b -> is_suffix b c -> is_suffix a c.
Proof.
  intros [p ->] [q ->]. exists (q ++ p). now rewrite append_assoc.
Qed.

Lemma is_suffix_tail (c : ascii) (s : string) : is_suffix s (String c s).
Proof. now exists (String c ""). Qed.

Lemma forallb_append (p : ascii -> bool) (a b : string) :
  Str.forallb p (a ++ b) = Str.forallb p a && Str.forallb p b.
Proof.
  induction a as [|c a IH]; simpl; [reflexivity|].
  now rewrite IH, andb_assoc.
Qed.

Lemma drop_prefix_app (l s : string) : Re.drop_prefix l (l ++ s) = Some s.
Proof.
  induction l as [|c l IH]; simpl; [reflexivity|].
  now rewrite Ascii.eqb_refl.
Qed.

Lemma drop_prefix_some (l s rest : string) :
  Re.drop_prefix l s = Some rest -> s = l ++ rest.
Proof.
  revert s. induction l as [|c l IH]; intros s; simpl.
  - now intros [= ->].
  - destruct s as [|d s]; [discriminate|].
    destruct (Ascii.eqb c d) eqn:E; [|discriminate].
    apply Ascii.eqb_eq in E. subst d. intros H. now rewrite (IH _ H).
Qed.

Lemma drop_prefix_prefix (l s : string) :
  Re.drop_prefix l s = None <-> prefix l s = false.
Proof.
  revert s. induction l as [|c l IH]; intros s; simpl.
  - destruct s; simpl; split; discriminate.
  - destruct s as [|d s]; simpl; [tauto|].
    destruct (ascii_dec c d) as [->|Hne].
    + rewrite Ascii.eqb_refl. apply IH.
    + pose proof Hne as Hb. apply Ascii.eqb_neq in Hb. rewrite Hb.
      destruct (ascii_dec c d); [contradiction|tauto].
Qed.

Lemma prefix_app (l s : string) : prefix l (l ++ s) = true.
Proof.
  destruct (prefix l (l ++ s)) eqn:E; [reflexivity|].
  apply drop_prefix_prefix in E. rewrite drop_prefix_app in E. discriminate.
Qed.

Lemma contains_false_suffix (l s t : string) :
  Str.contains l s = false -> is_suffix t s -> Re.drop_prefix l t = None.
Proof.
  intros H [p ->]. induction p as [|c p IH].
  - apply drop_prefix_prefix.
    destruct t; simpl in H; apply orb_false_elim in H; tauto.
  - apply IH. simpl in H. apply orb_false_elim in H. tauto.
Qed.

(** ** The matcher *)

Section MatcherFacts.
Variable A : Type.
Implicit Types (p : ascii -> bool) (k : string -> option A).

(** A greedy class that can take all of [a] and no more hands over at
    the end of [a] when the rest of the pattern matches there. *)
Lemma star_longest p a b k r :
  Str.forallb p a = true -> stops p b = true -> k b = Some r ->
  Re.star p (a ++ b) k = Some r.
Proof.
  intros Ha Hb Hk. induction a as [|c a IH]; simpl.
  - destruct b as [|d b]; [exact Hk|]. simpl in Hb.
    apply negb_true_iff in Hb. simpl. now rewrite Hb.
  - simpl in Ha. apply andb_prop in Ha. destruct Ha as [Hc Ha].
    now rewrite Hc, (IH Ha).
Qed.

Lemma star_head p s k :
  (forall b1 b2, s = b1 ++ b2 -> b1 <> "" -> k b2 = None) ->
  Re.star p s k = k s.
Proof.
  induction s as [|c s IH]; intros H; simpl; [reflexivity|].
  destruct (p c); [|reflexivity].
  rewrite IH.
  - now rewrite (H (String c "") s eq_refl).
  - intros b1 b2 -> Hne. apply (H (String c b1) b2); [reflexivity|discriminate].
Qed.

(** A greedy class gives back as little as it can: it hands over at the
    last place where the rest of the pattern matches. *)
Lemma star_last p a b k r :
  Str.forallb p a = true -> k b = Some r ->
  (forall b1 b2, b = b1 ++ b2 -> b1 <> "" -> k b2 = None) ->
  Re.star p (a ++ b) k = Some r.
Proof.
  intros Ha Hk Hlater. induction a as [|c a IH]; simpl.
  - change (Re.star p b k = Some r). now rewrite star_head.
  - simpl in Ha. apply andb_prop in Ha. destruct Ha as [Hc Ha].
    now rewrite Hc, (IH Ha).
Qed.

Lemma star_complete p a b k :
  Str.forallb p a = true -> k b <> None -> Re.star p (a ++ b) k <> None.
Proof.
  intros Ha Hk. induction a as [|c a IH]; simpl.
  - change (Re.star p b k <> None).
    destruct b as [|d b]; simpl; [exact Hk|].
    destruct (p d); [|exact Hk].
    destruct (Re.star p b k); [discriminate|exact Hk].
  - simpl in Ha. apply andb_prop in Ha. destruct Ha as [Hc Ha].
    rewrite Hc. specialize (IH Ha).
    destruct (Re.star p (a ++ b) k); [discriminate|contradiction].
Qed.

Lemma star_sound p s k r :
  Re.star p s k = Some r ->
  exists a b, s = a ++ b /\ Str.forallb p a = true /\ k b = Some r.
Proof.
  induction s as [|c s IH]; simpl; intros H.
  - now exists "", "".
  - destruct (p c) eqn:Hc; [|now exists "", (String c s)].
    destruct (Re.star p s k) as [r'|] eqn:E; [|now exists "", (String c s)].
    injection H as ->. destruct (IH eq_refl) as (a & b & -> & Ha & Hk).
    exists (String c a), b. simpl. now rewrite Hc, Ha.
Qed.

Lemma star_none p s k :
  (forall t, is_suffix t s -> k t = None) -> Re.star p s k = None.
Proof.
  induction s as [|c s IH]; intros H; simpl.
  - apply H, is_suffix_refl.
  - rewrite IH.
    + rewrite (H _ (is_suffix_refl _)). now destruct (p c).
    + intros t Ht. apply H.
      exact (is_suffix_trans Ht (is_suffix_tail c s)).
Qed.

Lemma lazy_star_here p s k r :
  k s = Some r -> Re.lazy_star p s k = Some r.
Proof. intros H. destruct s; simpl; now rewrite H. Qed.

(** A lazy class goes past the places where the rest of the pattern
    cannot match. *)
Lemma lazy_star_first p a b k :
  Str.forallb p a = true ->
  (forall a1 a2, a = a1 ++ a2 -> a2 <> "" -> k (a2 ++ b) = None) ->
  Re.lazy_star p (a ++ b) k = Re.lazy_star p b k.
Proof.
  induction a as [|c a IH]; intros Ha H; [reflexivity|].
  simpl in Ha. apply andb_prop in Ha. destruct Ha as [Hc Ha].
  change (Re.lazy_star p (String c (a ++ b)) k = Re.lazy_star p b k).
  simpl. change (String c (a ++ b)) with (String c a ++ b).
  rewrite (H "" (String c a) eq_refl) by discriminate.
  rewrite Hc. apply IH; [exact Ha|].
  intros a1 a2 -> Hne. apply (H (String c a1) a2); [reflexivity|exact Hne].
Qed.

Lemma lazy_star_none p s k :
  (forall t, is_suffix t s -> k t = None) -> Re.lazy_star p s k = None.
Proof.
  induction s as [|c s IH]; intros H; simpl.
  - now rewrite (H _ (is_suffix_refl _)).
  - rewrite (H _ (is_suffix_refl _)). destruct (p c); [|reflexivity].
    apply IH. intros t Ht. apply H.
    exact (is_suffix_trans Ht (is_suffix_tail c s)).
Qed.

(** The continuation is only ever called on what is left of the text:
    when it fails on every suffix, the match fails. *)
Lemma run_none (r : Re.regex) :
  forall s caps (k : string -> list string -> option A),
    (forall t c, is_suffix t s -> k t c = None) ->
    Re.run r s caps k = None.
Proof.
  induction r as [l|p|p|p|p|r1 IH1 r2 IH2|r IH]; intros s caps k H; simpl.
  - destruct (Re.drop_prefix l s) as [rest|] eqn:E; [|reflexivity].
    apply H. exists l. exact (drop_prefix_some _ _ E).
  - destruct s as [|c s]; [reflexivity|]. destruct (p c); [|reflexivity].
    apply H, is_suffix_tail.
  - apply star_none. intros t Ht. now apply H.
  - destruct s as [|c s]; [reflexivity|]. destruct (p c); [|reflexivity].
    apply star_none. intros t Ht. apply H.
    exact (is_suffix_trans Ht (is_suffix_tail c s)).
  - apply lazy_star_none. intros t Ht. now apply H.
  - apply IH1. intros t c Ht. apply IH2. intros t' c' Ht'. apply H.
    exact (is_suffix_trans Ht' Ht).
  - apply IH. intros t c Ht. now apply H.
Qed.

(** A pattern that ends with a literal needs the literal in the text. *)
Lemma run_ends_with_lit (l : string) (r : Re.regex) :
  ends_with_lit l r ->
  forall s caps (k : string -> list string -> option A),
    (forall t, is_suffix t s -> Re.drop_prefix l t = None) ->
    Re.run r s caps k = None.
Proof.
  induction r as [l'|p|p|p|p|r1 IH1 r2 IH2|r IH]; simpl; try contradiction.
  - intros -> s caps k H. now rewrite (H _ (is_suffix_refl _)).
  - intros He s caps k H. apply run_none. intros t c Ht.
    apply (IH2 He). intros t' Ht'. apply H.
    exact (is_suffix_trans Ht' Ht).
Qed.

End MatcherFacts.

Lemma star_mono {A B : Type} (p : ascii -> bool) (s : string)
      (k : string -> option A) (k' : string -> option B) :
  (forall t, k t = None -> k' t = None) ->
  Re.star p s k = None -> Re.star p s k' = None.
Proof.
  intros H. induction s as [|c s IH]; simpl; [apply H|].
  destruct (p c); [|apply H].
  destruct (Re.star p s k) eqn:E; [discriminate|].
  rewrite (IH eq_refl). apply H.
Qed.

Lemma search_here (r : Re.regex) (s : string) m :
  Re.match_ r s = Some m -> Re.search r s = Some m.
Proof. intros H. destruct s; simpl; now rewrite H. Qed.

Lemma search_skip (r : Re.regex) (test : string -> bool) (pre s : string) :
  (forall t, test t = false -> Re.match_ r t = None) ->
  none_before test pre s = true ->
  Re.search r (pre ++ s) = Re.search r s.
Proof.
  intros Ht. induction pre as [|c pre IH]; intros H; [reflexivity|].
  simpl in H. apply andb_prop in H. destruct H as [Hc H].
  apply negb_true_iff in Hc.
  change (Re.search r (String c (pre ++ s)) = Re.search r s).
  simpl. rewrite (Ht _ Hc). now apply IH.
Qed.

Lemma search_none (r : Re.regex) (s : string) :
  (forall t, is_suffix t s -> Re.match_ r t = None) -> Re.search r s = None.
Proof.
  induction s as [|c s IH]; intros H; simpl.
  - now rewrite (H _ (is_suffix_refl _)).
  - rewrite (H _ (is_suffix_refl _)). apply IH. intros t Ht. apply H.
    exact (is_suffix_trans Ht (is_suffix_tail c s)).
Qed.

Lemma search_sound (r : Re.regex) (s : string) m :
  Re.search r s = Some m ->
  exists pre t, s = pre ++ t /\ Re.match_ r t = Some m.
Proof.
  induction s as [|c s IH]; simpl.
  - destruct (Re.match_ r "") eqn:E; [|discriminate].
    intros [= ->]. now exists "", "".
  - destruct (Re.match_ r (String c s)) eqn:E.
    + intros [= ->]. now exists "", (String c s).
    + intros H. destruct (IH H) as (pre & t & -> & Hm).
      now exists (String c pre), t.
Qed.

Lemma search_complete (r : Re.regex) (pre t : string) :
  Re.match_ r t <> None -> Re.search r (pre ++ t) <> None.
Proof.
  intros H. induction pre as [|c pre IH].
  - change (Re.search r t <> None).
    destruct (Re.match_ r t) as [m|] eqn:E; [|contradiction].
    now rewrite (search_here _ _ E).
  - change (Re.search r (String c (pre ++ t)) <> None). simpl.
    destruct (Re.match_ r (String c (pre ++ t))); [discriminate|exact IH].
Qed.

Unset Implicit Arguments.

(** ** Where the interface body ends *)

Lemma forallb_any (s : string) : Str.forallb Re.any s = true.
Proof. induction s as [|c s IH]; simpl; [reflexivity|exact IH]. Qed.

Lemma closing_is_last (post b1 b2 : string) :
  Str.contains closing post = false ->
  closing ++ post = b1 ++ b2 -> b1 <> "" ->
  Re.drop_prefix closing b2 = None.
Proof.
  intros Hpost E Hne. destruct b1 as [|c1 b1]; [congruence|].
  injection E as <- E. destruct b1 as [|c2 b1].
  - simpl in E. subst b2. reflexivity.
  - injection E as <- E.
    apply contains_false_suffix with (s := post); [exact Hpost|].
    exists b1. exact E.
Qed.

(** The group [( .* )] before the closing literal takes the text up to
    the last place where a line starts with a closing brace. *)
Lemma capture_to_last_closing (A : Type) (body post : string)
      (caps : list string) (k : string -> list string -> option A) r :
  Str.contains closing post = false ->
  k post (caps ++ [body])%list = Some r ->
  Re.run (Re.Seq (Re.Grp (Re.Star Re.any)) (Re.Lit closing))
         (body ++ closing ++ post) caps k = Some r.
Proof.
  intros Hpost Hk. cbn [Re.run].
  apply star_last.
  - apply forallb_any.
  - rewrite drop_prefix_app, substring_prefix. exact Hk.
  - intros b1 b2 E Hne. now rewrite (closing_is_last post b1 b2 Hpost E Hne).
Qed.

Lemma run_lit_seq (A : Type) (l : string) (r2 : Re.regex) (s : string)
      (caps : list string) (k : string -> list string -> option A) :
  Re.run (Re.Seq (Re.Lit l) r2) (l ++ s) caps k = Re.run r2 s caps k.
Proof. cbn [Re.run]. now rewrite drop_prefix_app. Qed.

Lemma match_interface (body post : string) :
  Str.contains closing post = false ->
  Re.match_ interface_re (interface_header ++ body ++ closing ++ post)
  = Some ([body], post).
Proof.
  intros Hpost. unfold Re.match_, interface_re.
  cbn [Re.seq].
  change (Re.Lit "export interface IStorage {")
    with (Re.Lit interface_header).
  rewrite run_lit_seq.
  apply capture_to_last_closing; [exact Hpost|reflexivity].
Qed.

Lemma match_interface_header (t : string) :
  prefix interface_header t = false -> Re.match_ interface_re t = None.
Proof.
  intros H. apply drop_prefix_prefix in H.
  unfold Re.match_, interface_re. cbn [Re.seq]. cbn [Re.run].
  change (Re.drop_prefix "export interface IStorage {")
    with (Re.drop_prefix interface_header).
  now rewrite H.
Qed.

Lemma match_interface_sound (t : string) m :
  Re.match_ interface_re t = Some m ->
  exists mid post, t = interface_header ++ mid ++ closing ++ post.
Proof.
  unfold Re.match_, interface_re. cbn [Re.seq]. cbn [Re.run].
  change (Re.drop_prefix "export interface IStorage {")
    with (Re.drop_prefix interface_header).
  destruct (Re.drop_prefix interface_header t) as [s1|] eqn:E; [|discriminate].
  apply drop_prefix_some in E. subst t. intros H.
  apply star_sound in H. destruct H as (a & b & -> & _ & H).
  destruct (Re.drop_prefix (String Str.newline "}") b) as [post|] eqn:Eb;
    [|discriminate].
  apply drop_prefix_some in Eb. subst b. now exists a, post.
Qed.

Lemma match_interface_complete (mid post : string) :
  Re.match_ interface_re (interface_header ++ mid ++ closing ++ post) <> None.
Proof.
  unfold Re.match_, interface_re. cbn [Re.seq]. cbn [Re.run].
  change (Re.drop_prefix "export interface IStorage {")
    with (Re.drop_prefix interface_header).
  rewrite drop_prefix_app. apply star_complete; [apply forallb_any|].
  change (String Str.newline "}") with closing.
  now rewrite drop_prefix_app.
Qed.

(** The interface body is everything between the first header and the last
    line of the whole text that starts with a closing brace: with the
    header nowhere before [pre] ends and no such line in [post], the
    sections are those of [body], whatever follows the interface's own
    closing brace inside it. *)
Theorem interface_body_runs_to_last_closing (pre body post db_text : string) :
  let text := pre ++ interface_header ++ body ++ closing ++ post in
  none_before (prefix interface_header) pre
              (interface_header ++ body ++ closing ++ post) = true ->
  Str.contains closing post = false ->
  Re.search interface_re text = Some ([body], post)
  /\ main text db_text
     = write_outputs (sections_of_body body)
                     (extract_methods text "MemStorage")
                     (extract_methods db_text "DbStorage").
Proof.
  intros text Hpre Hpost.
  assert (Re.search interface_re text = Some ([body], post)) as Hs.
  { unfold text.
    rewrite (search_skip interface_re (prefix interface_header) pre _
                         match_interface_header Hpre).
    apply search_here. now apply match_interface. }
  split; [exact Hs|]. unfold main. now rewrite Hs.
Qed.

Lemma interface_body_runs_to_last_closing_witness :
  let body := nl ++ "  // Users" ++ nl ++ "  getUser(id: string): Promise<User>;"
              ++ nl ++ "}" ++ nl ++ "export class MemStorage implements IStorage {"
              ++ nl ++ "  constructor() {" ++ nl ++ "  }" in
  let text := "import { users } from './schema';" ++ nl
              ++ interface_header ++ body ++ closing ++ nl in
  Re.search interface_re text = Some ([body], nl)
  /\ sections_of_body body = [("Users", ["getUser"; "constructor"])].
Proof.
  intros body text. split; [|vm_compute; reflexivity].
  apply (interface_body_runs_to_last_closing
           ("import { users } from './schema';" ++ nl) body nl "");
    vm_compute; reflexivity.
Defined.

(** The run stops with [SystemExit] exactly when the interface text has no
    occurrence of the header that is followed, anywhere later, by a line
    starting with a closing brace; the message is always the same, and the
    other source text is never a reason to stop. *)
Theorem main_exit_iff (interface_text db_text : string) :
  (main interface_text db_text = SystemExit "IStorage interface not found"
   <-> ~ exists pre mid post,
         interface_text = pre ++ interface_header ++ mid ++ closing ++ post)
  /\ (forall msg, main interface_text db_text = SystemExit msg ->
                  msg = "IStorage interface not found")
  /\ ((exists pre mid post,
          interface_text = pre ++ interface_header ++ mid ++ closing ++ post)
      -> exists report contracts,
        main interface_text db_text = Written report contracts).
Proof.
  unfold main, write_outputs.
  destruct (Re.search interface_re interface_text) as [m|] eqn:E.
  - split; [|split].
    + split; [discriminate|]. intros Hno. exfalso. apply Hno.
      apply search_sound in E. destruct E as (pre & t & -> & Hm).
      apply match_interface_sound in Hm. destruct Hm as (mid & post & ->).
      now exists pre, mid, post.
    + discriminate.
    + intros _. eexists. eexists. reflexivity.
  - split; [|split].
    + split; [|reflexivity]. intros _ (pre & mid & post & ->).
      now apply (search_complete interface_re pre _
                                  (match_interface_complete mid post)).
    + now intros msg [= <-].
    + intros (pre & mid & post & ->). exfalso.
      now apply (search_complete interface_re pre _
                                  (match_interface_complete mid post)).
Qed.

(** ** The block of a class *)

Lemma is_word_not_space (c : ascii) :
  Str.is_word c = true -> Str.is_space c = false.
Proof.
  destruct c as [[] [] [] [] [] [] [] []]; vm_compute; congruence.
Qed.

Lemma is_ident_cons (s : string) :
  is_ident s = true ->
  exists c s', s = String c s' /\ Str.is_word c = true
               /\ Str.forallb Str.is_word s' = true.
Proof.
  unfold is_ident. destruct s as [|c s]; simpl; [discriminate|].
  intros H. apply andb_prop in H. now exists c, s.
Qed.

Lemma class_header_needed (class_name t : string) :
  class_header class_name t = false ->
  Re.match_ (class_re class_name) t = None.
Proof.
  unfold class_header, class_header_re, class_re, Re.match_.
  cbn [Re.seq]. cbn [Re.run].
  destruct (Re.drop_prefix "class" t) as [s|]; [|reflexivity].
  destruct s as [|c s]; [reflexivity|].
  destruct (Re.space c); [|reflexivity].
  intros H. apply star_mono with (k := fun rest =>
      match Re.drop_prefix class_name rest with
      | Some rest0 => Some (@nil string, rest0)
      | None => None
      end).
  - intros u Hu. destruct (Re.drop_prefix class_name u); [discriminate|].
    reflexivity.
  - destruct (Re.star _ s _); [discriminate|reflexivity].
Qed.

Lemma no_brace_suffix (mid a1 a2 : string) :
  Str.forallb (fun c => negb (Ascii.eqb c "{")) mid = true ->
  mid = a1 ++ a2 -> a2 <> "" ->
  forall b, Re.drop_prefix "{" (a2 ++ b) = None.
Proof.
  intros H -> Hne b. rewrite forallb_append in H.
  apply andb_prop in H. destruct H as [_ H].
  destruct a2 as [|c a2]; [congruence|]. simpl in H.
  apply andb_prop in H. destruct H as [Hc _].
  apply negb_true_iff in Hc.
  change (Re.drop_prefix "{" (String c a2 ++ b))
    with (if Ascii.eqb "{" c then Re.drop_prefix "" (a2 ++ b) else None).
  rewrite Ascii.eqb_sym. now rewrite Hc.
Qed.

Lemma run_plus_seq (A : Type) (p : ascii -> bool) (r : Re.regex) (w : ascii)
      (ws rest : string) (caps : list string)
      (k : string -> list string -> option A) :
  p w = true ->
  Re.run (Re.Seq (Re.Plus p) r) (String w ws ++ rest) caps k
  = Re.star p (ws ++ rest) (fun t => Re.run r t caps k).
Proof.
  intros H. change (String w ws ++ rest) with (String w (ws ++ rest)).
  cbn [Re.run]. now rewrite H.
Qed.

Lemma run_lazy_seq (A : Type) (p : ascii -> bool) (r : Re.regex) (s : string)
      (caps : list string) (k : string -> list string -> option A) :
  Re.run (Re.Seq (Re.LazyStar p) r) s caps k
  = Re.lazy_star p s (fun t => Re.run r t caps k).
Proof. reflexivity. Qed.

Lemma run_star_seq (A : Type) (p : ascii -> bool) (r : Re.regex) (s : string)
      (caps : list string) (k : string -> list string -> option A) :
  Re.run (Re.Seq (Re.Star p) r) s caps k
  = Re.star p s (fun t => Re.run r t caps k).
Proof. reflexivity. Qed.

Lemma match_class (ws class_name mid block post : string) :
  Str.is_empty ws = false -> Str.forallb Str.is_space ws = true ->
  is_ident class_name = true ->
  Str.forallb (fun c => negb (Ascii.eqb c "{")) mid = true ->
  Str.contains closing post = false ->
  Re.match_ (class_re class_name)
            ("class" ++ ws ++ class_name ++ mid ++ "{" ++ block
                     ++ closing ++ post)
  = Some ([block], post).
Proof.
  intros Hne Hws Hcn Hmid Hpost.
  unfold Re.match_, class_re. cbn [Re.seq].
  rewrite run_lit_seq.
  destruct ws as [|w ws]; [discriminate|]. simpl in Hws.
  apply andb_prop in Hws. destruct Hws as [Hw Hws].
  rewrite run_plus_seq by exact Hw.
  apply star_longest.
  - exact Hws.
  - destruct (is_ident_cons _ Hcn) as (c & cn' & -> & Hc & _).
    simpl. unfold Re.space. now rewrite (is_word_not_space _ Hc).
  - rewrite run_lit_seq, run_lazy_seq.
    rewrite lazy_star_first.
    + apply lazy_star_here. rewrite run_lit_seq.
      apply capture_to_last_closing; [exact Hpost|reflexivity].
    + apply forallb_any.
    + intros a1 a2 E Hne2. cbn [Re.run].
      now rewrite (no_brace_suffix mid a1 a2 Hmid E Hne2).
Qed.

(** [extract_methods] scans the lines between the first opening brace
    after the class header and the last line of the whole text that starts
    with a closing brace.  Nothing tracks nesting or where the class
    itself ends: what follows the class in the same text, up to that last
    line, is part of the block. *)
Theorem extract_methods_block
        (pre ws class_name mid block post : string) :
  let rest := "class" ++ ws ++ class_name ++ mid ++ "{" ++ block
                      ++ closing ++ post in
  none_before (class_header class_name) pre rest = true ->
  Str.is_empty ws = false -> Str.forallb Str.is_space ws = true ->
  is_ident class_name = true ->
  Str.forallb (fun c => negb (Ascii.eqb c "{")) mid = true ->
  Str.contains closing post = false ->
  extract_methods (pre ++ rest) class_name = methods_of_block block.
Proof.
  intros rest Hpre Hne Hws Hcn Hmid Hpost. unfold extract_methods.
  rewrite (search_skip (class_re class_name) (class_header class_name) pre
                       rest (class_header_needed class_name) Hpre).
  rewrite (search_here (class_re class_name) rest
                       (match_class ws class_name mid block post
                                    Hne Hws Hcn Hmid Hpost)).
  reflexivity.
Qed.

Lemma extract_methods_block_witness :
  let block := nl ++ "  async getUser(id: string) {" ++ nl ++ "  }" ++ nl ++ "}"
               ++ nl ++ "export class Helper {" ++ nl
               ++ "  async ping() {" ++ nl ++ "  }" in
  let text := "export class MemStorage implements IStorage {" ++ block
              ++ closing ++ nl in
  extract_methods text "MemStorage" = methods_of_block block
  /\ methods_of_block block = ["getUser"; "ping"].
Proof.
  intros block text. split; [|vm_compute; reflexivity].
  apply (extract_methods_block "export " " " "MemStorage"
                               " implements IStorage " block nl);
    vm_compute; reflexivity.
Defined.

Lemma class_re_ends_with_closing (class_name : string) :
  ends_with_lit closing (class_re class_name).
Proof. reflexivity. Qed.

(** Without a line that starts with a closing brace the pattern cannot
    match, so [extract_methods] returns the empty set for every class
    name of identifier characters, also when the class and its method
    lines are there; the run does not stop for it. *)
Theorem extract_methods_unclosed (text class_name : string) :
  is_ident class_name = true ->
  Str.contains closing text = false ->
  extract_methods text class_name = []
  /\ forall interface_text,
      main interface_text text
      = match Re.search interface_re interface_text with
        | None => SystemExit "IStorage interface not found"
        | Some m =>
            write_outputs (sections_of_body (Re.group1 m))
                          (extract_methods interface_text "MemStorage") []
        end.
Proof.
  intros _ H.
  assert (forall cn, extract_methods text cn = []) as He.
  { intros cn. unfold extract_methods. rewrite search_none; [reflexivity|].
    intros t Ht. unfold Re.match_.
    apply run_ends_with_lit with (l := closing).
    - apply class_re_ends_with_closing.
    - intros t' Ht'. apply contains_false_suffix with (s := text).
      + exact H.
      + exact (is_suffix_trans Ht' Ht). }
  split; [apply He|].
  intros interface_text. unfold main. now rewrite (He "DbStorage").
Qed.

Lemma extract_methods_unclosed_witness :
  extract_methods ("class DbStorage {" ++ nl ++ "  async getUser(id: string) {")
                  "DbStorage" = [].
Proof.
  apply (extract_methods_unclosed
           ("class DbStorage {" ++ nl ++ "  async getUser(id: string) {")
           "DbStorage"); vm_compute; reflexivity.
Defined.

(** ** White space around a line *)

Lemma is_empty_append (a b : string) :
  Str.is_empty (a ++ b) = Str.is_empty a && Str.is_empty b.
Proof. destruct a; reflexivity. Qed.

Lemma is_empty_true (s : string) : Str.is_empty s = true -> s = "".
Proof. destruct s; [reflexivity|discriminate]. Qed.

Lemma lstrip_spaces (a s : string) :
  Str.forallb Str.is_space a = true -> Str.lstrip (a ++ s) = Str.lstrip s.
Proof.
  induction a as [|c a IH]; simpl; [reflexivity|].
  intros H. apply andb_prop in H. destruct H as [Hc Ha].
  rewrite Hc. now apply IH.
Qed.

Lemma lstrip_stops (s : string) :
  stops Str.is_space s = true -> Str.lstrip s = s.
Proof.
  destruct s as [|c s]; simpl; [reflexivity|].
  intros H. apply negb_true_iff in H. now rewrite H.
Qed.

Lemma rstrip_spaces (t : string) :
  Str.forallb Str.is_space t = true -> Str.rstrip t = "".
Proof.
  induction t as [|c t IH]; simpl; [reflexivity|].
  intros H. apply andb_prop in H. destruct H as [Hc Ht].
  now rewrite (IH Ht), Hc.
Qed.

Lemma rstrip_app_spaces (s t : string) :
  Str.forallb Str.is_space t = true -> Str.rstrip (s ++ t) = Str.rstrip s.
Proof.
  intros Ht. induction s as [|c s IH]; simpl.
  - now apply rstrip_spaces.
  - now rewrite IH.
Qed.

Lemma rstrip_app_kept (a b : string) :
  Str.is_empty (Str.rstrip b) = false ->
  Str.rstrip (a ++ b) = a ++ Str.rstrip b.
Proof.
  intros Hb. induction a as [|c a IH]; simpl; [reflexivity|].
  rewrite IH, is_empty_append, Hb, andb_false_r, andb_false_r.
  reflexivity.
Qed.

Lemma rstrip_last (s : string) (c : ascii) :
  Str.is_space c = false ->
  Str.rstrip (s ++ String c "") = s ++ String c "".
Proof.
  intros Hc. rewrite rstrip_app_kept; simpl; now rewrite Hc.
Qed.

Lemma rstrip_first (c : ascii) (s : string) :
  Str.is_space c = false ->
  Str.rstrip (String c s) = String c (Str.rstrip s).
Proof. intros Hc. simpl. now rewrite Hc. Qed.

(** ** The text before the first parenthesis *)

Lemma forallb_impl (p q : ascii -> bool) (s : string) :
  (forall c, p c = true -> q c = true) ->
  Str.forallb p s = true -> Str.forallb q s = true.
Proof.
  intros H. induction s as [|c s IH]; simpl; [reflexivity|].
  intros Hs. apply andb_prop in Hs. destruct Hs as [Hc Hs].
  now rewrite (H c Hc), (IH Hs).
Qed.

Lemma word_not_paren (c : ascii) :
  Str.is_word c = true -> negb (Ascii.eqb c "(") = true.
Proof.
  destruct c as [[] [] [] [] [] [] [] []]; vm_compute; congruence.
Qed.

Lemma word_not_slash (c : ascii) :
  Str.is_word c = true -> Ascii.eqb "/" c = false.
Proof.
  destruct c as [[] [] [] [] [] [] [] []]; vm_compute; congruence.
Qed.

Lemma split_first (sep : ascii) (a b : string) :
  Str.forallb (fun x => negb (Ascii.eqb x sep)) a = true ->
  Str.split sep (a ++ String sep b) = a :: Str.split sep b.
Proof.
  intros H. now rewrite split_app_sep, (split_no_sep sep a H).
Qed.

Lemma split_hd_prefix (sep : ascii) (s : string) :
  exists rest, s = hd "" (Str.split sep s) ++ rest.
Proof.
  induction s as [|c s IH]; simpl.
  - now exists "".
  - destruct (Ascii.eqb c sep).
    + now exists (String c s).
    + destruct IH as [rest E]. pose proof (split_not_nil sep s) as Hne.
      destruct (Str.split sep s) as [|h t]; [congruence|].
      simpl in *. exists rest. now rewrite E at 1.
Qed.

Lemma words_token (t : string) :
  Str.is_empty t = false ->
  Str.forallb (fun c => negb (Str.is_space c)) t = true ->
  Str.words t = [t].
Proof.
  induction t as [|c t IH]; [discriminate|].
  intros _ H. simpl in H. apply andb_prop in H. destruct H as [Hc Ht].
  apply negb_true_iff in Hc. simpl. rewrite Hc.
  destruct t as [|d t]; [reflexivity|].
  pose proof Ht as Ht'. simpl in Ht'. apply andb_prop in Ht'.
  destruct Ht' as [Hd _]. apply negb_true_iff in Hd. rewrite Hd.
  now rewrite (IH eq_refl Ht).
Qed.

Lemma prefix_app_true (l a b : string) :
  prefix l a = true -> prefix l (a ++ b) = true.
Proof.
  revert a. induction l as [|c l IH]; intros a; simpl.
  - now destruct (a ++ b).
  - destruct a as [|d a]; simpl; [discriminate|].
    destruct (ascii_dec c d); [apply IH|discriminate].
Qed.

Lemma contains_cons (l : string) (c : ascii) (s : string) :
  Str.contains l (String c s) = prefix l (String c s) || Str.contains l s.
Proof. reflexivity. Qed.

Lemma contains_prefix (l s : string) :
  prefix l s = true -> Str.contains l s = true.
Proof.
  intros H. destruct s.
  - change (prefix l "" || false = true). now rewrite H.
  - rewrite contains_cons. now rewrite H.
Qed.

Lemma contains_app_true (l a b : string) :
  Str.contains l a = true -> Str.contains l (a ++ b) = true.
Proof.
  induction a as [|c a IH].
  - change (Str.contains l "") with (prefix l "" || false).
    rewrite orb_false_r. intros H. apply contains_prefix.
    now apply (prefix_app_true l "" b).
  - rewrite contains_cons. intros H.
    change (String c a ++ b) with (String c (a ++ b)).
    rewrite contains_cons.
    apply orb_prop in H. destruct H as [H|H].
    + change (String c (a ++ b)) with (String c a ++ b).
      now rewrite (prefix_app_true l (String c a) b H).
    + rewrite (IH H). apply orb_true_r.
Qed.

(** ** Declaration lines *)

Lemma prefix_app_l (a b s : string) :
  prefix (a ++ b) s = true -> prefix a s = true.
Proof.
  revert s. induction a as [|c a IH]; intros s.
  - intros _. now destruct s.
  - destruct s as [|d s]; simpl; [discriminate|].
    destruct (ascii_dec c d); [apply IH|discriminate].
Qed.

Lemma set_mem_set_add (n x : string) (s : name_set) :
  set_mem n (set_add x s) = (n =? x) || set_mem n s.
Proof.
  unfold set_add. destruct (set_mem x s) eqn:E.
  - destruct (n =? x) eqn:Enx; [|reflexivity].
    apply String.eqb_eq in Enx. subst. now rewrite E.
  - rewrite set_mem_app. unfold set_mem at 2. simpl.
    rewrite orb_false_r. apply orb_comm.
Qed.

Lemma set_add_In (n x : string) (s : name_set) :
  In n (set_add x s) -> n = x \/ In n s.
Proof.
  unfold set_add. destruct (set_mem x s); [now right|].
  intros H. apply in_app_or in H. destruct H as [H|[H|[]]]; auto.
Qed.

(** Every step of the loop adds at most one name and removes none. *)
Lemma methods_step_cases (result : name_set) (line : string) :
  methods_step result line = result
  \/ exists name, methods_step result line = set_add name result.
Proof.
  unfold methods_step.
  destruct (Str.is_empty (Str.strip line) || Str.startswith "//" (Str.strip line));
    [now left|].
  destruct (Str.startswith "async " (Str.strip line)); [right; eauto|].
  destruct (is_some (Re.match_ sync_re (Str.strip line))
            && negb (Str.contains "constructor" (Str.strip line))
            && negb (Str.contains "async" (Str.strip line)));
    [right; eauto|now left].
Qed.

Lemma methods_step_keeps (n : string) (result : name_set) (line : string) :
  set_mem n result = true -> set_mem n (methods_step result line) = true.
Proof.
  intros H. destruct (methods_step_cases result line) as [->|[x ->]];
    [exact H|].
  rewrite set_mem_set_add, H. apply orb_true_r.
Qed.

Lemma methods_fold_keeps (n : string) (lines : list string) (result : name_set) :
  set_mem n result = true ->
  set_mem n (fold_left methods_step lines result) = true.
Proof.
  revert result. induction lines as [|l lines IH]; intros result H; simpl.
  - exact H.
  - apply IH. now apply methods_step_keeps.
Qed.

Lemma methods_fold_found (n line : string) (l1 l2 : list string) :
  (forall result, methods_step result line = set_add n result) ->
  set_mem n (fold_left methods_step (l1 ++ line :: l2)%list []) = true.
Proof.
  intros H. rewrite fold_left_app. simpl. apply methods_fold_keeps.
  rewrite H, set_mem_set_add, String.eqb_refl. reflexivity.
Qed.

Lemma ident_no_paren (name : string) :
  is_ident name = true ->
  Str.forallb (fun x => negb (Ascii.eqb x "(")) name = true.
Proof.
  unfold is_ident. intros H. apply andb_prop in H. destruct H as [_ H].
  exact (forallb_impl _ _ name word_not_paren H).
Qed.

Lemma ident_no_space (name : string) :
  is_ident name = true ->
  Str.is_empty name = false
  /\ Str.forallb (fun c => negb (Str.is_space c)) name = true.
Proof.
  unfold is_ident. intros H. apply andb_prop in H. destruct H as [He H].
  split; [now apply negb_true_iff in He|].
  apply (forallb_impl Str.is_word); [|exact H].
  intros c Hc. now rewrite (is_word_not_space c Hc).
Qed.

Lemma strip_async_decl (indent name tail : string) :
  Str.forallb Str.is_space indent = true -> is_ident name = true ->
  Str.strip (indent ++ async_decl name tail)
  = async_decl name (Str.rstrip tail).
Proof.
  intros Hi Hn. unfold Str.strip. rewrite (lstrip_spaces indent _ Hi).
  rewrite lstrip_stops by reflexivity.
  unfold async_decl.
  assert (Str.rstrip ("(" ++ tail) = "(" ++ Str.rstrip tail) as Hp
      by (apply rstrip_first; reflexivity).
  assert (Str.rstrip (name ++ "(" ++ tail) = name ++ "(" ++ Str.rstrip tail)
    as Hq by (rewrite rstrip_app_kept; rewrite Hp; reflexivity).
  rewrite rstrip_app_kept; rewrite Hq; [reflexivity|].
  rewrite is_empty_append.
  destruct (ident_no_space name Hn) as [He _]. now rewrite He.
Qed.

Lemma words_async (name : string) :
  is_ident name = true -> Str.words ("async " ++ name) = ["async"; name].
Proof.
  intros Hn. destruct (ident_no_space name Hn) as [He Hs].
  pose proof (words_token name He Hs) as Hw.
  destruct name as [|c name]; [discriminate|].
  simpl in Hs. apply andb_prop in Hs. destruct Hs as [Hc _].
  apply negb_true_iff in Hc.
  change ("async " ++ String c name)
    with (String "a" (String "s" (String "y" (String "n" (String "c"
           (String " " (String c name))))))).
  assert (Str.words (String " " (String c name)) = [String c name]) as H0
      by (change (Str.words (String " " (String c name)))
            with (Str.words (String c name)); exact Hw).
  assert (Str.words (String "c" (String " " (String c name)))
          = ["c"; String c name]) as H1
      by (change (Str.words (String "c" (String " " (String c name))))
            with ("c" :: Str.words (String " " (String c name)));
          now rewrite H0).
  assert (forall x s h t, Str.is_space x = false ->
            stops Str.is_space s = true -> s <> "" ->
            Str.words s = h :: t ->
            Str.words (String x s) = String x h :: t) as Hcons.
  { intros x s h t Hx Hst Hne Hws. destruct s as [|d s]; [congruence|].
    simpl in Hst. apply negb_true_iff in Hst.
    change (Str.words (String x (String d s)))
      with (if Str.is_space x then Str.words (String d s)
            else if Str.is_space d
                 then String x "" :: Str.words (String d s)
                 else match Str.words (String d s) with
                      | h :: t => String x h :: t
                      | [] => [String x ""]
                      end).
    now rewrite Hx, Hst, Hws. }
  change ["async"; String c name]
    with [String "a" (String "s" (String "y" (String "n" "c")));
          String c name].
  do 4 (apply Hcons; [reflexivity|reflexivity|discriminate|]).
  exact H1.
Qed.

(** A line that starts with [async ] adds the name before the first
    parenthesis, whatever the name is and whatever follows: the guards on
    ['constructor'] and ['async'] are not asked here.  The name is in the
    vocabulary of every block with such a line. *)
Theorem async_declaration_adds_name
        (indent name tail : string) (l1 l2 : list string) (result : name_set) :
  Str.forallb Str.is_space indent = true -> is_ident name = true ->
  let line := indent ++ async_decl name tail in
  methods_step result line = set_add name result
  /\ set_mem name (fold_left methods_step (l1 ++ line :: l2)%list []) = true.
Proof.
  intros Hi Hn line. unfold line.
  assert (forall r, methods_step r (indent ++ async_decl name tail)
                    = set_add name r) as Hstep.
  { intros r. unfold methods_step.
    rewrite (strip_async_decl indent name tail Hi Hn).
    change (Str.is_empty (async_decl name (Str.rstrip tail))
            || Str.startswith "//" (async_decl name (Str.rstrip tail)))
      with false.
    change (Str.startswith "async " (async_decl name (Str.rstrip tail)))
      with (prefix "async " ("async " ++ name ++ "(" ++ Str.rstrip tail)).
    rewrite prefix_app. cbv iota.
    unfold async_decl.
    replace ("async " ++ name ++ "(" ++ Str.rstrip tail)
      with (("async " ++ name) ++ String "(" (Str.rstrip tail))
      by (now rewrite append_assoc).
    rewrite split_first.
    - cbn [hd]. now rewrite (words_async name Hn).
    - rewrite forallb_append, (ident_no_paren name Hn). reflexivity. }
  split; [apply Hstep|]. now apply methods_fold_found.
Qed.

Lemma async_declaration_adds_name_witness :
  methods_step ["getUser"] "  async constructor(private db: Db) {"
  = ["getUser"; "constructor"].
Proof.
  apply (async_declaration_adds_name "  " "constructor" "private db: Db) {"
                                     [] [] ["getUser"]);
    vm_compute; reflexivity.
Defined.

Lemma word_line_not_comment (c : ascii) (s : string) :
  Str.is_word c = true -> prefix "//" (String c s) = false.
Proof.
  destruct c as [[] [] [] [] [] [] [] []]; intros H;
    try (vm_compute in H; discriminate H); reflexivity.
Qed.

Lemma strip_sync_decl (indent name params ws trail : string) :
  Str.forallb Str.is_space indent = true ->
  Str.forallb Str.is_space trail = true ->
  is_ident name = true ->
  Str.strip (indent ++ sync_decl name params ws ++ trail)
  = sync_decl name params ws.
Proof.
  intros Hi Ht Hn. unfold Str.strip. rewrite (lstrip_spaces indent _ Hi).
  destruct (is_ident_cons name Hn) as (c & name' & -> & Hc & _).
  rewrite lstrip_stops
    by (simpl; now rewrite (is_word_not_space c Hc)).
  rewrite (rstrip_app_spaces _ trail Ht). unfold sync_decl.
  assert (Str.rstrip (ws ++ "{") = ws ++ "{") as H1
      by (apply rstrip_last; reflexivity).
  assert (Str.rstrip (")" ++ ws ++ "{") = ")" ++ ws ++ "{") as H2.
  { change (")" ++ ws ++ "{") with (String ")" (ws ++ "{")).
    rewrite rstrip_first by reflexivity. now rewrite H1. }
  assert (Str.rstrip (params ++ ")" ++ ws ++ "{") = params ++ ")" ++ ws ++ "{")
    as H3 by (rewrite rstrip_app_kept; rewrite H2; reflexivity).
  assert (Str.rstrip ("(" ++ params ++ ")" ++ ws ++ "{")
          = "(" ++ params ++ ")" ++ ws ++ "{") as H4.
  { change ("(" ++ params ++ ")" ++ ws ++ "{")
      with (String "(" (params ++ ")" ++ ws ++ "{")).
    rewrite rstrip_first by reflexivity. now rewrite H3. }
  rewrite rstrip_app_kept; rewrite H4; reflexivity.
Qed.

Lemma sync_re_matches (name params ws : string) :
  is_ident name = true -> no_newline params = true ->
  Str.forallb Str.is_space ws = true ->
  is_some (Re.match_ sync_re (sync_decl name params ws)) = true.
Proof.
  intros Hn Hp Hw.
  assert (Re.match_ sync_re (sync_decl name params ws) <> None) as H.
  { destruct (is_ident_cons name Hn) as (c & name' & -> & Hc & Hname').
    unfold Re.match_, sync_re, sync_decl. cbn [Re.seq].
    rewrite run_plus_seq by exact Hc.
    apply star_complete; [exact Hname'|].
    rewrite run_lit_seq, run_star_seq.
    apply star_complete; [exact Hp|].
    rewrite run_lit_seq, run_star_seq.
    apply star_complete; [exact Hw|].
    cbn. discriminate. }
  destruct (Re.match_ sync_re (sync_decl name params ws));
    [reflexivity|contradiction].
Qed.

(** A synchronous declaration, [name(params) {], adds its name when the
    line has neither ['constructor'] nor ['async'] anywhere in it, the
    parameters included; the same name comes out of the asynchronous
    form. *)
Theorem sync_declaration_adds_name
        (indent name params ws trail : string) (l1 l2 : list string)
        (result : name_set) :
  Str.forallb Str.is_space indent = true ->
  Str.forallb Str.is_space trail = true ->
  is_ident name = true -> no_newline params = true ->
  Str.forallb Str.is_space ws = true ->
  Str.contains "constructor" (sync_decl name params ws) = false ->
  Str.contains "async" (sync_decl name params ws) = false ->
  let line := indent ++ sync_decl name params ws ++ trail in
  methods_step result line = set_add name result
  /\ methods_step result line
     = methods_step result (indent ++ async_decl name (params ++ ")" ++ ws ++ "{"))
  /\ set_mem name (fold_left methods_step (l1 ++ line :: l2)%list []) = true.
Proof.
  intros Hi Ht Hn Hp Hw Hc Ha line.
  assert (forall r, methods_step r line = set_add name r) as Hstep.
  { intros r. unfold methods_step, line.
    rewrite (strip_sync_decl indent name params ws trail Hi Ht Hn).
    rewrite (sync_re_matches name params ws Hn Hp Hw), Hc, Ha.
    assert (Str.startswith "async " (sync_decl name params ws) = false) as Hs.
    { destruct (Str.startswith "async " (sync_decl name params ws)) eqn:E;
        [|reflexivity].
      unfold Str.startswith in E.
      apply (prefix_app_l "async" " ") in E.
      apply contains_prefix in E. congruence. }
    rewrite Hs.
    destruct (is_ident_cons name Hn) as (c & name' & E & Hcw & _).
    assert (Str.is_empty (sync_decl name params ws)
            || Str.startswith "//" (sync_decl name params ws) = false) as He.
    { rewrite E. unfold sync_decl, Str.startswith.
      change (String c name' ++ "(" ++ params ++ ")" ++ ws ++ "{")
        with (String c (name' ++ "(" ++ params ++ ")" ++ ws ++ "{")).
      now rewrite (word_line_not_comment c _ Hcw). }
    rewrite He. simpl.
    unfold sync_decl.
    change (name ++ "(" ++ params ++ ")" ++ ws ++ "{")
      with (name ++ String "(" (params ++ ")" ++ ws ++ "{")).
    now rewrite (split_first "(" name _ (ident_no_paren name Hn)). }
  split; [apply Hstep|]. split.
  - rewrite Hstep.
    now destruct (async_declaration_adds_name
                    indent name (params ++ ")" ++ ws ++ "{") [] [] result
                    Hi Hn) as [-> _].
  - now apply methods_fold_found.
Qed.

Lemma sync_declaration_adds_name_witness :
  methods_step [] "  getUser(id: string) {" = ["getUser"]
  /\ methods_step [] "  getUser(id: string) {"
     = methods_step [] "  async getUser(id: string) {".
Proof.
  destruct (sync_declaration_adds_name "  " "getUser" "id: string" " " ""
                                       [] [] [])
    as (H1 & H2 & _); try (vm_compute; reflexivity).
  split; [exact H1|exact H2].
Defined.

(** ** The guards of the synchronous form *)

Lemma sync_name_clean (sub result_line : string) :
  Str.contains sub result_line = false ->
  Str.contains sub (hd "" (Str.split "(" result_line)) = false.
Proof.
  intros H. destruct (split_hd_prefix "(" result_line) as [rest E].
  destruct (Str.contains sub (hd "" (Str.split "(" result_line))) eqn:C;
    [|reflexivity].
  apply (contains_app_true sub _ rest) in C. rewrite <- E in C. congruence.
Qed.

Lemma methods_step_sync_clean (result : name_set) (line n : string) :
  is_async_line line = false ->
  In n (methods_step result line) ->
  In n result
  \/ (Str.contains "constructor" n = false /\ Str.contains "async" n = false).
Proof.
  unfold is_async_line, methods_step. intros Hs.
  destruct (Str.is_empty (Str.strip line) || Str.startswith "//" (Str.strip line));
    [now left|].
  rewrite Hs.
  destruct (is_some (Re.match_ sync_re (Str.strip line))) ; [|now left].
  destruct (Str.contains "constructor" (Str.strip line)) eqn:Ec; [now left|].
  destruct (Str.contains "async" (Str.strip line)) eqn:Ea; [now left|].
  simpl. intros H. apply set_add_In in H. destruct H as [->|H]; [|now left].
  right. split; now apply sync_name_clean.
Qed.

(** In a block without a line that starts with [async ], no name of the
    vocabulary has ['constructor'] or ['async'] in it: the constructor of
    the class is not one of its methods, and neither is any method whose
    line mentions one of the two words. *)
Theorem sync_vocabulary_excludes_constructor (block : string) :
  forallb (fun line => negb (is_async_line line))
          (Str.split Str.newline block) = true ->
  (forall n, In n (methods_of_block block) ->
             Str.contains "constructor" n = false
             /\ Str.contains "async" n = false)
  /\ set_mem "constructor" (methods_of_block block) = false.
Proof.
  intros Hall.
  assert (forall lines result,
             forallb (fun line => negb (is_async_line line)) lines = true ->
             (forall n, In n result ->
                        Str.contains "constructor" n = false
                        /\ Str.contains "async" n = false) ->
             forall n, In n (fold_left methods_step lines result) ->
                       Str.contains "constructor" n = false
                       /\ Str.contains "async" n = false) as Hfold.
  { induction lines as [|l lines IH]; intros result Hl Hr n Hn; simpl in *.
    - now apply Hr.
    - apply andb_prop in Hl. destruct Hl as [Hl Hls].
      apply negb_true_iff in Hl.
      apply (IH (methods_step result l) Hls); [|exact Hn].
      intros m Hm.
      destruct (methods_step_sync_clean result l m Hl Hm) as [Hin|Hc];
        [now apply Hr|exact Hc]. }
  assert (forall n, In n (methods_of_block block) ->
                    Str.contains "constructor" n = false
                    /\ Str.contains "async" n = false) as Hclean.
  { intros n Hn. unfold methods_of_block in Hn.
    apply (Hfold _ [] Hall); [intros m []|exact Hn]. }
  split; [exact Hclean|].
  destruct (set_mem "constructor" (methods_of_block block)) eqn:E;
    [|reflexivity].
  apply set_mem_true_iff in E. apply Hclean in E. destruct E as [E _].
  vm_compute in E. discriminate.
Qed.

Lemma sync_vocabulary_excludes_constructor_witness :
  let block := nl ++ "  constructor(db) {" ++ nl ++ "  }" ++ nl
               ++ "  getUser(id) {" ++ nl ++ "  }" ++ nl
               ++ "  asyncFlush(items) {" ++ nl ++ "  }" in
  methods_of_block block = ["getUser"]
  /\ set_mem "constructor" (methods_of_block block) = false.
Proof.
  intros block. split; [vm_compute; reflexivity|].
  apply (sync_vocabulary_excludes_constructor block).
  vm_compute. reflexivity.
Defined.

(** ** What a signature line and a marker line are *)

Lemma run_grp_seq (A : Type) (r r2 : Re.regex) (s : string)
      (caps : list string) (k : string -> list string -> option A) :
  Re.run (Re.Seq (Re.Grp r) r2) s caps k
  = Re.run r s caps
           (fun rest caps' =>
              Re.run r2 rest
                     (caps' ++ [substring 0 (String.length s
                                             - String.length rest) s])%list
                     k).
Proof. reflexivity. Qed.

Lemma run_plus (A : Type) (p : ascii -> bool) (w : ascii)
      (ws rest : string) (caps : list string)
      (k : string -> list string -> option A) :
  p w = true ->
  Re.run (Re.Plus p) (String w ws ++ rest) caps k
  = Re.star p (ws ++ rest) (fun t => k t caps).
Proof.
  intros H. change (String w ws ++ rest) with (String w (ws ++ rest)).
  cbn [Re.run]. now rewrite H.
Qed.

Lemma run_plus_cons (A : Type) (p : ascii -> bool) (c : ascii) (s : string)
      (caps : list string) (k : string -> list string -> option A) :
  Re.run (Re.Plus p) (String c s) caps k
  = if p c then Re.star p s (fun t => k t caps) else None.
Proof. reflexivity. Qed.

Lemma run_lit_sound (A : Type) (l s : string) (caps : list string)
      (k : string -> list string -> option A) (r : A) :
  Re.run (Re.Lit l) s caps k = Some r ->
  exists rest, s = l ++ rest /\ k rest caps = Some r.
Proof.
  cbn [Re.run]. destruct (Re.drop_prefix l s) as [rest|] eqn:E;
    [|discriminate].
  intros H. exists rest. split; [now apply drop_prefix_some|exact H].
Qed.

Lemma match_signature (n rest : string) :
  is_ident n = true ->
  Re.match_ signature_re (n ++ "(" ++ rest) = Some ([n], rest).
Proof.
  intros Hn. destruct (is_ident_cons n Hn) as (c & n' & E & Hc & Hn').
  subst n. unfold Re.match_, signature_re. rewrite run_grp_seq.
  rewrite run_plus by exact Hc.
  apply star_longest; [exact Hn'|reflexivity|].
  rewrite substring_prefix.
  change ("(" ++ rest) with (String "(" rest). cbn. reflexivity.
Qed.

Lemma match_signature_sound (line : string) (m : list string * string) :
  Re.match_ signature_re line = Some m ->
  is_ident (Re.group1 m) = true
  /\ line = Re.group1 m ++ "(" ++ snd m.
Proof.
  unfold Re.match_, signature_re. rewrite run_grp_seq.
  destruct line as [|c s]; [discriminate|]. rewrite run_plus_cons.
  destruct (Re.word c) eqn:Hc; [|discriminate].
  intros H. apply star_sound in H. destruct H as (a & b & -> & Ha & H).
  apply run_lit_sound in H. destruct H as (rest & -> & H).
  change (String c (a ++ "(" ++ rest)) with (String c a ++ "(" ++ rest) in H.
  rewrite substring_prefix in H. injection H as <-.
  unfold Re.group1. cbn [fst snd nth app]. split; [|reflexivity].
  unfold is_ident. cbn [Str.is_empty negb Str.forallb andb].
  unfold Re.word in Hc, Ha. now rewrite Hc, Ha.
Qed.

(** A line gives a method name to the section loop exactly when, white
    space around it removed, it starts with one or more identifier
    characters followed at once by an opening parenthesis; the name is
    that run of characters.  What comes after the parenthesis is not
    looked at. *)
Theorem line_name_spec (raw n : string) :
  line_name raw = Some n
  <-> is_ident n = true /\ exists rest, Str.strip raw = n ++ "(" ++ rest.
Proof.
  unfold line_name. split.
  - destruct (Str.is_empty (Str.strip raw)); [discriminate|].
    destruct (Str.startswith "//" (Str.strip raw)); [discriminate|].
    destruct (Re.match_ signature_re (Str.strip raw)) as [m|] eqn:E;
      [|discriminate].
    simpl. intros [= <-].
    destruct (match_signature_sound _ m E) as [Hi Hl].
    split; [exact Hi|]. now exists (snd m).
  - intros (Hn & rest & E). rewrite E.
    destruct (is_ident_cons n Hn) as (c & n' & En & Hc & _).
    assert (Str.is_empty (n ++ "(" ++ rest) = false) as He
        by (rewrite En; reflexivity).
    assert (Str.startswith "//" (n ++ "(" ++ rest) = false) as Hs.
    { rewrite En. unfold Str.startswith.
      change (String c n' ++ "(" ++ rest) with (String c (n' ++ "(" ++ rest)).
      exact (word_line_not_comment c _ Hc). }
    rewrite He, Hs, (match_signature n rest Hn). reflexivity.
Qed.

(** The title of a marker line is what is left of the line without the
    white space around it, the two slashes and the white space after
    them. *)
Theorem line_title_spec (indent ws title trail : string) :
  Str.forallb Str.is_space indent = true ->
  Str.forallb Str.is_space ws = true ->
  Str.forallb Str.is_space trail = true ->
  stops Str.is_space title = true -> Str.rstrip title = title ->
  line_title (indent ++ "//" ++ ws ++ title ++ trail) = Some title
  /\ line_name (indent ++ "//" ++ ws ++ title ++ trail) = None.
Proof.
  intros Hi Hw Ht Hl Hr.
  assert (Str.strip (indent ++ "//" ++ ws ++ title ++ trail)
          = "//" ++ Str.rstrip (ws ++ title)) as Hstrip.
  { unfold Str.strip. rewrite (lstrip_spaces indent _ Hi).
    rewrite lstrip_stops by reflexivity.
    change ("//" ++ ws ++ title ++ trail)
      with (String "/" (String "/" (ws ++ title ++ trail))).
    rewrite !rstrip_first by reflexivity.
    rewrite <- append_assoc, (rstrip_app_spaces _ trail Ht). reflexivity. }
  assert (Re.sub_at_start marker_re "" ("//" ++ Str.rstrip (ws ++ title))
          = title) as Hsub.
  { unfold Re.sub_at_start, Re.match_, marker_re. rewrite run_lit_seq.
    destruct (Str.is_empty title) eqn:Et.
    - apply is_empty_true in Et. subst title.
      rewrite append_nil_r, (rstrip_spaces ws Hw). reflexivity.
    - rewrite rstrip_app_kept by (now rewrite Hr).
      rewrite Hr. cbn [Re.run].
      rewrite star_longest with (r := (@nil string, title));
        [reflexivity|exact Hw|exact Hl|reflexivity]. }
  assert (line_title (indent ++ "//" ++ ws ++ title ++ trail) = Some title)
    as Htitle.
  { unfold line_title. rewrite Hstrip.
    change (Str.is_empty ("//" ++ Str.rstrip (ws ++ title))) with false.
    unfold Str.startswith. rewrite prefix_app. now rewrite Hsub. }
  split; [exact Htitle|]. exact (title_excludes_name _ Htitle).
Qed.

Lemma line_title_spec_witness :
  line_title "    //   Forum Posts  " = Some "Forum Posts"
  /\ line_name "    //   Forum Posts  " = None.
Proof.
  apply (line_title_spec "    " "   " "Forum Posts" "  "); reflexivity.
Defined.

(** ** Which sections there are *)

Lemma titles_In (t : string) (before lines : list string) :
  In t (titles before lines)
  <-> exists l1 raw l2,
      lines = (l1 ++ raw :: l2)%list
      /\ title_of (before ++ l1)%list raw = Some t.
Proof.
  revert before. induction lines as [|raw lines IH]; intros before; simpl.
  - split; [contradiction|]. intros (l1 & r & l2 & E & _). now destruct l1.
  - rewrite in_app_iff, IH. split.
    + intros [Hc|(l1 & r & l2 & E & Ht)].
      * exists [], raw, lines. rewrite app_nil_r.
        destruct (title_of before raw) as [t'|]; [|contradiction].
        destruct Hc as [->|[]]. auto.
      * exists (raw :: l1), r, l2. rewrite <- app_assoc in Ht.
        simpl. now rewrite E.
    + intros (l1 & r & l2 & E & Ht). destruct l1 as [|r0 l1].
      * simpl in E. injection E as -> ->. left.
        rewrite app_nil_r in Ht. rewrite Ht. now left.
      * simpl in E. injection E as -> ->. right.
        exists l1, r, l2. rewrite <- app_assoc. auto.
Qed.

Lemma In_first_seen (t : string) (l : list string) :
  In t (first_seen l) <-> In t l.
Proof.
  rewrite <- !set_mem_true_iff. now rewrite set_mem_first_seen.
Qed.

Lemma title_of_spec (before : list string) (raw t : string) :
  title_of before raw = Some t
  <-> line_title raw = Some t
      \/ (line_name raw <> None /\ nearest_marker before = t).
Proof.
  unfold title_of. destruct (line_title raw) as [t'|] eqn:Et.
  - rewrite (title_excludes_name raw Et). split; [auto|].
    intros [H|[H _]]; [exact H|congruence].
  - destruct (line_name raw) as [n|]; split.
    + intros [= <-]. right. split; [discriminate|reflexivity].
    + intros [H|[_ <-]]; [discriminate|reflexivity].
    + discriminate.
    + intros [H|[H _]]; [discriminate|congruence].
Qed.

(** The table has an entry for a title exactly when the body has a marker
    line with that title, or a signature line whose nearest preceding
    marker has it (['General'] before the first marker): a marker gets its
    entry even when no method follows it.  The table is empty exactly when
    no line of the body is a marker or a signature line. *)
Theorem section_keys_spec (body : string) :
  let lines := Str.split Str.newline body in
  let sections := sections_of_body body in
  (forall t,
      In t (keys sections)
      <-> exists l1 raw l2,
          lines = (l1 ++ raw :: l2)%list
          /\ (line_title raw = Some t
              \/ (line_name raw <> None /\ nearest_marker l1 = t)))
  /\ (sections = []
      <-> forall raw, In raw lines ->
                      line_title raw = None /\ line_name raw = None).
Proof.
  intros lines sections.
  destruct (loop_inv_sections lines) as (_ & Hkeys & _).
  fold (sections_of_body body) in Hkeys.
  change (fst (sections_loop lines)) with sections in Hkeys.
  assert (forall t,
             In t (keys sections)
             <-> exists l1 raw l2,
                 lines = (l1 ++ raw :: l2)%list
                 /\ (line_title raw = Some t
                     \/ (line_name raw <> None /\ nearest_marker l1 = t)))
    as Hspec.
  { intros t. rewrite Hkeys, In_first_seen, titles_In. split.
    - intros (l1 & raw & l2 & E & Ht). exists l1, raw, l2.
      split; [exact E|]. now apply title_of_spec in Ht.
    - intros (l1 & raw & l2 & E & Ht). exists l1, raw, l2.
      split; [exact E|]. now apply title_of_spec. }
  split; [exact Hspec|]. split.
  - intros E raw Hin. apply in_split in Hin. destruct Hin as (l1 & l2 & El).
    destruct (line_title raw) as [t|] eqn:Et.
    + assert (In t (keys sections)) as Hk
          by (apply Hspec; exists l1, raw, l2; auto).
      rewrite E in Hk. contradiction.
    + split; [reflexivity|].
      destruct (line_name raw) as [n|] eqn:En; [|reflexivity].
      assert (In (nearest_marker l1) (keys sections)) as Hk.
      { apply Hspec. exists l1, raw, l2. split; [exact El|]. right.
        split; [congruence|reflexivity]. }
      rewrite E in Hk. contradiction.
  - intros Hnone. destruct sections as [|[t v] d] eqn:E; [reflexivity|].
    exfalso. assert (In t (keys ((t, v) :: d))) as Hk by now left.
    apply Hspec in Hk. destruct Hk as (l1 & raw & l2 & El & Ht).
    destruct (Hnone raw) as [H1 H2].
    { rewrite El. apply in_or_app. right. now left. }
    destruct Ht as [Ht|[Ht _]]; congruence.
Qed.

(** ** The two parts of the report *)

Lemma detail_in_report sections mem db item line :
  In item sections ->
  In line (detail_lines mem db item) ->
  In line (REPORT_LINES sections mem db).
Proof.
  intros Hi Hl. unfold REPORT_LINES.
  apply in_or_app. right. apply in_or_app. right.
  apply in_or_app. right. apply in_flat_map. now exists item.
Qed.

(** The detailed part of the report agrees with the summary: a section
    with a method other than the constructor has its heading and one line
    for each such method, and the line says [N] for an implementation
    exactly when the summary lists the method as missing from it. *)
Theorem detail_agrees_with_summary
        (sections : odict) (mem_methods db_methods : name_set)
        (sec : string) (names : list string) (n : string) :
  In (sec, names) sections -> In n (filtered names) ->
  In ("## " ++ sec) (REPORT_LINES sections mem_methods db_methods)
  /\ In (method_line mem_methods db_methods n)
        (REPORT_LINES sections mem_methods db_methods)
  /\ (flag n mem_methods = "N"
      <-> In n (missing (filtered names) mem_methods))
  /\ (flag n db_methods = "N"
      <-> In n (missing (filtered names) db_methods)).
Proof.
  intros Hin Hn.
  assert (is_nil (filtered names) = false) as Hne
      by (destruct (filtered names); [contradiction|reflexivity]).
  assert (forall vocabulary,
             flag n vocabulary = "N"
             <-> In n (missing (filtered names) vocabulary)) as Hflag.
  { intros v. unfold flag, missing. rewrite filter_In.
    destruct (set_mem n v); simpl; split.
    - discriminate.
    - intros [_ H]. discriminate.
    - auto.
    - reflexivity. }
  split; [|split; [|split; apply Hflag]].
  - apply detail_in_report with (item := (sec, names)); [exact Hin|].
    simpl. rewrite Hne. now left.
  - apply detail_in_report with (item := (sec, names)); [exact Hin|].
    simpl. rewrite Hne. right. now apply in_map.
Qed.

Lemma detail_agrees_with_summary_witness :
  let report := REPORT_LINES [("Users", ["getUser"; "createUser"])]
                             ["getUser"] ["getUser"; "createUser"] in
  In "## Users" report
  /\ In "- createUser: inMem=N, inDb=Y" report
  /\ In "createUser" (missing (filtered ["getUser"; "createUser"]) ["getUser"]).
Proof.
  destruct (detail_agrees_with_summary
              [("Users", ["getUser"; "createUser"])]
              ["getUser"] ["getUser"; "createUser"]
              "Users" ["getUser"; "createUser"] "createUser")
    as (H1 & H2 & H3 & _).
  - now left.
  - right. now left.
  - split; [exact H1|]. split; [exact H2|]. now apply H3.
Defined.

(** ** Sections without a configured domain *)

(** The generated contracts depend on the section table only through the
    entries of the configured titles: sections with other titles, which
    the report still lists, change nothing in them. *)
Theorem contracts_ignore_unconfigured
        (config : list (string * (string * string)))
        (sections sections' : odict) :
  (forall sec, In sec (map fst config) -> get sections sec = get sections' sec) ->
  contracts_lines config sections = contracts_lines config sections'
  /\ repository_entries config sections = repository_entries config sections'.
Proof.
  intros H.
  assert (forall item, In item config ->
                       get_or_nil sections (fst item)
                       = get_or_nil sections' (fst item)) as Hget.
  { intros item Hin. unfold get_or_nil. rewrite (H (fst item)); [reflexivity|].
    now apply in_map. }
  assert (filter (nonempty_section sections) config
          = filter (nonempty_section sections') config) as Hf.
  { apply filter_ext_in. intros item Hin. unfold nonempty_section.
    now rewrite (Hget item Hin). }
  assert (map (decl_of sections) (filter (nonempty_section sections') config)
          = map (decl_of sections')
                (filter (nonempty_section sections') config)) as Hd.
  { apply map_ext_in. intros item Hin. apply filter_In in Hin.
    unfold decl_of. now rewrite (Hget item (proj1 Hin)). }
  unfold contracts_lines, repository_entries.
  rewrite !contracts_loop_eq, Hf, Hd. split; reflexivity.
Qed.

Lemma contracts_ignore_unconfigured_witness :
  contracts_lines SECTION_CONFIG [("Invoices", ["getInvoice"])]
  = contracts_lines SECTION_CONFIG
                    [("Invoices", ["getInvoice"]); ("Health checks", ["ping"])].
Proof.
  apply (contracts_ignore_unconfigured
           SECTION_CONFIG [("Invoices", ["getInvoice"])]
           [("Invoices", ["getInvoice"]); ("Health checks", ["ping"])]).
  intros sec Hin. cbn [get].
  destruct (string_dec sec "Health checks") as [->|Hne].
  - exfalso. revert Hin. unfold SECTION_CONFIG. simpl.
    intuition discriminate.
  - apply not_eq_sym in Hne. apply String.eqb_neq in Hne. rewrite Hne.
    now destruct ("Invoices" =? sec).
Defined.

(** ** Replacing the contractor update block *)

Lemma replace_first_eq (old new text : string) :
  replace_first old new text
  = match Re.drop_prefix old text with
    | Some rest => new ++ rest
    | None =>
        match text with
        | EmptyString => EmptyString
        | String c text' => String c (replace_first old new text')
        end
    end.
Proof. destruct text; reflexivity. Qed.

Lemma none_before_cons (test : string -> bool) (c : ascii) (pre rest : string) :
  none_before test (String c pre) rest
  = negb (test (String c pre ++ rest)) && none_before test pre rest.
Proof. reflexivity. Qed.

Lemma replace_first_at (old new pre post : string) :
  none_before (prefix old) pre (old ++ post) = true ->
  replace_first old new (pre ++ old ++ post) = pre ++ new ++ post.
Proof.
  induction pre as [|c pre IH]; intros H.
  - change ("" ++ old ++ post) with (old ++ post).
    now rewrite replace_first_eq, drop_prefix_app.
  - rewrite none_before_cons in H. apply andb_prop in H.
    destruct H as [Hc H].
    apply negb_true_iff in Hc. apply drop_prefix_prefix in Hc.
    rewrite replace_first_eq, Hc.
    change (String c pre ++ old ++ post) with (String c (pre ++ old ++ post)).
    cbv iota. now rewrite (IH H).
Qed.

Lemma contains_first (old text : string) :
  Str.contains old text = true ->
  exists pre post,
    text = pre ++ old ++ post
    /\ none_before (prefix old) pre (old ++ post) = true.
Proof.
  induction text as [|c text IH].
  - change (Str.contains old "") with (prefix old "" || false).
    rewrite orb_false_r. intros H.
    destruct (Re.drop_prefix old "") as [rest|] eqn:E.
    + apply drop_prefix_some in E. now exists "", rest.
    + apply drop_prefix_prefix in E. congruence.
  - rewrite contains_cons.
    destruct (prefix old (String c text)) eqn:Ep.
    + intros _. destruct (Re.drop_prefix old (String c text)) as [rest|] eqn:E.
      * apply drop_prefix_some in E. now exists "", rest.
      * apply drop_prefix_prefix in E. congruence.
    + rewrite orb_false_l. intros H.
      destruct (IH H) as (pre & post & E & Hn).
      exists (String c pre), post.
      assert (String c text = String c pre ++ old ++ post) as E'
          by (rewrite E; reflexivity).
      split; [exact E'|].
      rewrite none_before_cons, <- E', Ep. exact Hn.
Qed.

Lemma contains_at (old pre post : string) :
  Str.contains old (pre ++ old ++ post) = true.
Proof.
  induction pre as [|c pre IH].
  - apply contains_prefix. exact (prefix_app old post).
  - change (String c pre ++ old ++ post) with (String c (pre ++ old ++ post)).
    rewrite contains_cons, IH. apply orb_true_r.
Qed.

(** When the block is in the file, the script writes the file with the
    first occurrence of the block replaced by the new block and everything
    else as it was, later occurrences of the block included. *)
Theorem patch_replaces_first_block (pre post : string) :
  none_before (prefix old_block) pre (old_block ++ post) = true ->
  rewrite_contractor_update (pre ++ old_block ++ post)
  = Patched (pre ++ new_block ++ post).
Proof.
  intros H. unfold rewrite_contractor_update.
  now rewrite contains_at, (replace_first_at old_block new_block pre post H).
Qed.

Lemma patch_replaces_first_block_witness :
  rewrite_contractor_update
    ("// routes" ++ nl ++ old_block ++ "// copy" ++ nl ++ old_block)
  = Patched ("// routes" ++ nl ++ new_block ++ "// copy" ++ nl ++ old_block).
Proof.
  rewrite <- (append_assoc "// routes" nl).
  rewrite <- (append_assoc "// routes" nl (new_block ++ _)).
  apply (patch_replaces_first_block ("// routes" ++ nl)
                                    ("// copy" ++ nl ++ old_block)).
  vm_compute. reflexivity.
Defined.

(** The script stops with [SystemExit] exactly when the block is nowhere
    in the file, and then writes nothing; otherwise the new text differs
    from the old one only in that one occurrence of the block has given
    way to the new block. *)
Theorem patch_exit_iff (text : string) :
  (rewrite_contractor_update text
   = PatchExit "contractor update block not found"
   <-> Str.contains old_block text = false)
  /\ (forall msg, rewrite_contractor_update text = PatchExit msg ->
                  msg = "contractor update block not found")
  /\ (forall text', rewrite_contractor_update text = Patched text' ->
                    exists pre post,
                      text = pre ++ old_block ++ post
                      /\ text' = pre ++ new_block ++ post
                      /\ none_before (prefix old_block) pre
                                     (old_block ++ post) = true).
Proof.
  unfold rewrite_contractor_update.
  destruct (Str.contains old_block text) eqn:E; simpl.
  - split; [split; discriminate|]. split; [discriminate|].
    intros text' [= <-].
    destruct (contains_first old_block text E) as (pre & post & -> & Hn).
    exists pre, post. split; [reflexivity|]. split; [|exact Hn].
    now apply replace_first_at.
  - split; [split; reflexivity|]. split; [|discriminate].
    now intros msg [= <-].
Qed.

(** ** Lines the vocabulary does not see *)

Lemma sync_re_ends_with_brace : ends_with_lit "{" sync_re.
Proof. reflexivity. Qed.

(** A line that does not start with [async ] and has no opening brace in
    it adds nothing: a declaration whose brace is on a later line, or a
    signature without a body, is passed over in silence. *)
Theorem line_without_brace_adds_nothing (result : name_set) (line : string) :
  is_async_line line = false ->
  Str.contains "{" (Str.strip line) = false ->
  methods_step result line = result.
Proof.
  unfold is_async_line, methods_step. intros Hs Hb.
  destruct (Str.is_empty (Str.strip line) || Str.startswith "//" (Str.strip line));
    [reflexivity|].
  rewrite Hs.
  assert (Re.match_ sync_re (Str.strip line) = None) as Hm.
  { unfold Re.match_. apply run_ends_with_lit with (l := "{").
    - exact sync_re_ends_with_brace.
    - intros t Ht. now apply contains_false_suffix with (s := Str.strip line). }
  now rewrite Hm.
Qed.

Lemma line_without_brace_adds_nothing_witness :
  methods_step ["getUser"] "  createUser(" = ["getUser"].
Proof.
  apply (line_without_brace_adds_nothing ["getUser"] "  createUser(");
    reflexivity.
Defined.

(** ** Recognising the lines of the generated file *)

Lemma prefix_cons (a c : ascii) (l s : string) :
  prefix (String a l) (String c s)
  = if ascii_dec a c then prefix l s else false.
Proof. reflexivity. Qed.

Lemma prefix_app_same (a l s : string) :
  prefix (a ++ l) (a ++ s) = prefix l s.
Proof.
  induction a as [|c a IH]; [reflexivity|].
  change (prefix (String c (a ++ l)) (String c (a ++ s)) = prefix l s).
  rewrite prefix_cons. destruct (ascii_dec c c); [exact IH|congruence].
Qed.

Lemma word_not_blank (c : ascii) : Str.is_word c = true -> c <> " "%char.
Proof. intros H ->. discriminate H. Qed.

(** Two identifiers followed by a blank are the same when one text starts
    with the other. *)
Lemma ident_prefix_eq (a b x y : string) :
  Str.forallb Str.is_word a = true -> Str.forallb Str.is_word b = true ->
  prefix (a ++ String " " x) (b ++ String " " y) = true -> a = b.
Proof.
  revert b. induction a as [|c a IH]; intros b Ha Hb H.
  - destruct b as [|d b]; [reflexivity|].
    change (prefix (String " " x) (String d (b ++ String " " y)) = true) in H.
    rewrite prefix_cons in H. simpl in Hb. apply andb_prop in Hb.
    destruct (ascii_dec " " d) as [<-|]; [|discriminate].
    destruct Hb as [Hb _]. discriminate Hb.
  - simpl in Ha. apply andb_prop in Ha. destruct Ha as [Hc Ha].
    destruct b as [|d b].
    + change (prefix (String c (a ++ String " " x)) (String " " y) = true) in H.
      rewrite prefix_cons in H.
      destruct (ascii_dec c " ") as [->|]; [discriminate Hc|discriminate].
    + change (prefix (String c (a ++ String " " x))
                     (String d (b ++ String " " y)) = true) in H.
      rewrite prefix_cons in H. simpl in Hb. apply andb_prop in Hb.
      destruct Hb as [_ Hb].
      destruct (ascii_dec c d) as [->|]; [|discriminate].
      now rewrite (IH b Ha Hb H).
Qed.

Lemma is_ident_words (s : string) :
  is_ident s = true -> Str.forallb Str.is_word s = true.
Proof. unfold is_ident. intros H. now apply andb_prop in H. Qed.

Lemma declares_type_decl (type_name : string) (methods : list string) :
  declares type_name (type_decl type_name methods) = true.
Proof.
  unfold declares, type_decl.
  rewrite prefix_app_same, prefix_app_same. reflexivity.
Qed.

Lemma declares_type_decl_eq (ty ty' : string) (methods : list string) :
  is_ident ty = true -> is_ident ty' = true ->
  declares ty (type_decl ty' methods) = true -> ty = ty'.
Proof.
  intros Ht Ht'. unfold declares, type_decl. rewrite prefix_app_same.
  apply ident_prefix_eq; now apply is_ident_words.
Qed.

Lemma declares_aggregate_line (ty : string) (e : string * string) :
  declares ty (aggregate_line e) = false.
Proof. destruct e. reflexivity. Qed.

Lemma declares_factory_line (ty : string) (e : string * string) :
  declares ty (factory_line e) = false.
Proof. destruct e. reflexivity. Qed.

(** The lines of the generated file, part by part. *)
Lemma contracts_lines_parts
      (config : list (string * (string * string))) (sections : odict) :
  contracts_lines config sections
  = (header_lines
       ++ map (decl_of sections) (filter (nonempty_section sections) config)
       ++ ["export interface StorageRepositories {"]
       ++ map aggregate_line (repository_entries config sections)
       ++ [("}" ++ nl)%string]
       ++ ["export const createStorageRepositories = (storage: IStorage): StorageRepositories => ({"]
       ++ map factory_line (repository_entries config sections)
       ++ [("});" ++ nl)%string])%list.
Proof.
  unfold contracts_lines, repository_entries. rewrite contracts_loop_eq.
  cbn [snd]. now rewrite <- !app_assoc.
Qed.

(** A line of the generated file that starts the declaration of a type
    is the declaration of an emitted domain. *)
Lemma declaring_line_is_decl
      (config : list (string * (string * string))) (sections : odict)
      (ty line : string) :
  In line (contracts_lines config sections) -> declares ty line = true ->
  exists item, In item config /\ nonempty_section sections item = true
               /\ line = decl_of sections item.
Proof.
  rewrite contracts_lines_parts. intros Hin Hd.
  apply in_app_or in Hin. destruct Hin as [Hin|Hin].
  { destruct Hin as [<-|[<-|[]]]; discriminate Hd. }
  apply in_app_or in Hin. destruct Hin as [Hin|Hin].
  { apply in_map_iff in Hin. destruct Hin as (item & <- & Hf).
    apply filter_In in Hf. now exists item. }
  apply in_app_or in Hin. destruct Hin as [Hin|Hin].
  { destruct Hin as [<-|[]]. discriminate Hd. }
  apply in_app_or in Hin. destruct Hin as [Hin|Hin].
  { apply in_map_iff in Hin. destruct Hin as (e & <- & _).
    rewrite declares_aggregate_line in Hd. discriminate. }
  apply in_app_or in Hin. destruct Hin as [Hin|Hin].
  { destruct Hin as [<-|[]]. discriminate Hd. }
  apply in_app_or in Hin. destruct Hin as [Hin|Hin].
  { destruct Hin as [<-|[]]. discriminate Hd. }
  apply in_app_or in Hin. destruct Hin as [Hin|Hin].
  { apply in_map_iff in Hin. destruct Hin as (e & <- & _).
    rewrite declares_factory_line in Hd. discriminate. }
  destruct Hin as [<-|[]]. discriminate Hd.
Qed.

(** ** Skipped domains *)

(** C7.  For a configuration whose (type, property) pairs are distinct, as
    those of [SECTION_CONFIG] are, a configured domain gets its aggregate
    entry if and only if the section table has the domain's title with a
    method other than the constructor, and then the generated file has the
    line [export type T = Pick<IStorage, ...>;] with the methods of the
    section, the constructor left out, in their order.  A title that is
    absent from the table or whose list has no such method yields no
    entry, and every entry comes from an item of the configuration, so a
    section without one yields none.  When moreover the type names are
    distinct identifiers, the generated file has a line that starts the
    declaration of a domain's type if and only if the section table has
    the domain's title with a method other than the constructor. *)
Theorem narrowed_type_emitted_iff
        (config : list (string * (string * string))) (sections : odict) :
  NoDup (map snd config) ->
  (forall sec ty prop,
      In (sec, (ty, prop)) config ->
      (In (prop, ty) (repository_entries config sections)
       <-> has_method sections sec)
      /\ (has_method sections sec ->
          In ("export type " ++ ty ++ " = Pick<IStorage," ++ nl ++ "  "
              ++ Str.join (" |" ++ nl ++ "  ")
                          (map (fun name => "'" ++ name ++ "'")
                               (filtered (get_or_nil sections sec)))
              ++ nl ++ ">;" ++ nl)
             (contracts_lines config sections))
      /\ (get sections sec = None ->
          ~ In (prop, ty) (repository_entries config sections))
      /\ (filtered (get_or_nil sections sec) = [] ->
          ~ In (prop, ty) (repository_entries config sections)))
  /\ fst (contracts_loop config sections)
     = (header_lines
          ++ map (decl_of sections)
                 (filter (nonempty_section sections) config))%list
  /\ (forall prop ty,
         In (prop, ty) (repository_entries config sections) ->
         exists sec, In (sec, (ty, prop)) config /\ has_method sections sec)
  /\ (NoDup (map type_name_of config) ->
      forallb (fun item => is_ident (type_name_of item)) config = true ->
      forall sec ty prop,
        In (sec, (ty, prop)) config ->
        ((exists line, In line (contracts_lines config sections)
                       /\ declares ty line = true)
         <-> has_method sections sec)).
Proof.
  intros Hnd.
  assert (forall sec ty prop,
             In (sec, (ty, prop)) config -> has_method sections sec ->
             In (type_decl ty (filtered (get_or_nil sections sec)))
                (contracts_lines config sections)) as Hdecl.
  { intros sec ty prop Hin Hm. rewrite contracts_lines_parts.
    apply in_or_app. right. apply in_or_app. left.
    apply in_map_iff. exists (sec, (ty, prop)). split; [reflexivity|].
    apply filter_In. split; [exact Hin|]. now apply nonempty_section_iff. }
  split; [|split; [|split]].
  - intros sec ty prop Hin.
    pose proof (@entry_in_iff config sections sec ty prop Hnd Hin) as Hiff.
    split; [exact Hiff|]. split; [|split].
    + intros Hm. exact (Hdecl sec ty prop Hin Hm).
    + intros Hg Hn. apply Hiff in Hn.
      destruct Hn as (names & n & Hg' & _). congruence.
    + intros Hf Hn. apply Hiff in Hn.
      apply (nonempty_section_iff sections sec ty prop) in Hn.
      unfold nonempty_section in Hn. simpl in Hn. rewrite Hf in Hn.
      discriminate.
  - now rewrite contracts_loop_eq.
  - intros prop ty He. unfold repository_entries in He.
    rewrite contracts_loop_eq in He. simpl in He.
    apply in_map_iff in He. destruct He as ([sec [ty' prop']] & E & Hf).
    unfold entry_of in E. simpl in E. injection E as -> ->.
    apply filter_In in Hf. destruct Hf as [Hin Hne].
    exists sec. split; [exact Hin|]. now apply nonempty_section_iff in Hne.
  - intros Htypes Hident sec ty prop Hin. split.
    + intros (line & Hline & Hd).
      destruct (declaring_line_is_decl config sections ty line Hline Hd)
        as ([sec' [ty' prop']] & Hin' & Hne & ->).
      assert (is_ident ty = true) as Hi.
      { rewrite forallb_forall in Hident. exact (Hident _ Hin). }
      assert (is_ident ty' = true) as Hi'.
      { rewrite forallb_forall in Hident. exact (Hident _ Hin'). }
      unfold decl_of in Hd. cbn [fst snd] in Hd.
      apply (declares_type_decl_eq ty ty' _ Hi Hi') in Hd. subst ty'.
      assert ((sec', (ty, prop')) = (sec, (ty, prop))) as E.
      { apply (@NoDup_map_inj_in _ _ type_name_of config); trivial. }
      injection E as -> ->. now apply nonempty_section_iff in Hne.
    + intros Hm. exists (type_decl ty (filtered (get_or_nil sections sec))).
      split; [exact (Hdecl sec ty prop Hin Hm)|apply declares_type_decl].
Qed.

Lemma narrowed_type_emitted_iff_witness :
  let sections :=
    [("Invoices", ["getInvoice"; "constructor"; "payInvoice"]);
     ("Deals", ["constructor"]); ("Misc", ["ping"])] in
  In ("export type InvoiceRepository = Pick<IStorage," ++ nl
      ++ "  'getInvoice' |" ++ nl ++ "  'payInvoice'" ++ nl ++ ">;" ++ nl)
     (contracts_lines SECTION_CONFIG sections)
  /\ In ("invoices", "InvoiceRepository")
        (repository_entries SECTION_CONFIG sections)
  /\ ~ In ("messages", "MessageRepository")
         (repository_entries SECTION_CONFIG sections)
  /\ ~ In ("deals", "DealRepository")
         (repository_entries SECTION_CONFIG sections)
  /\ ~ (exists line, In line (contracts_lines SECTION_CONFIG sections)
                     /\ declares "DealRepository" line = true).
Proof.
  intros sections.
  destruct (narrowed_type_emitted_iff SECTION_CONFIG sections
                                      SECTION_CONFIG_pairs_distinct)
    as (H & _ & _ & Hline).
  assert (has_method sections "Invoices") as Hm.
  { exists ["getInvoice"; "constructor"; "payInvoice"], "getInvoice".
    split; [reflexivity|]. split; [now left|discriminate]. }
  assert (~ has_method sections "Deals") as Hd.
  { intros (names & n & Hg & Hin & Hn). injection Hg as <-.
    destruct Hin as [<-|[]]. now apply Hn. }
  split; [|split; [|split; [|split]]].
  - destruct (H "Invoices" "InvoiceRepository" "invoices") as (_ & Hdecl & _);
      [unfold SECTION_CONFIG; simpl; tauto|].
    exact (Hdecl Hm).
  - destruct (H "Invoices" "InvoiceRepository" "invoices") as (Hiff & _);
      [unfold SECTION_CONFIG; simpl; tauto|].
    now apply Hiff.
  - destruct (H "Messages" "MessageRepository" "messages")
      as (_ & _ & Habsent & _); [unfold SECTION_CONFIG; simpl; tauto|].
    apply Habsent. reflexivity.
  - destruct (H "Deals" "DealRepository" "deals")
      as (_ & _ & _ & Hempty); [unfold SECTION_CONFIG; simpl; tauto|].
    apply Hempty. reflexivity.
  - intros Hex. apply Hd.
    assert (NoDup (map type_name_of SECTION_CONFIG)) as Hn
        by (apply distinctb_sound; vm_compute; reflexivity).
    assert (forallb (fun item => is_ident (type_name_of item)) SECTION_CONFIG
            = true) as Hi by (vm_compute; reflexivity).
    destruct (Hline Hn Hi "Deals" "DealRepository" "deals") as [Hl _];
      [unfold SECTION_CONFIG; simpl; tauto|exact (Hl Hex)].
Defined.

(** ** Aggregate and factory *)

(** Two identifiers followed by a colon: equal texts, equal identifiers. *)
Lemma ident_colon_eq (a b x y : string) :
  Str.forallb Str.is_word a = true -> Str.forallb Str.is_word b = true ->
  a ++ String ":" x = b ++ String ":" y -> a = b.
Proof.
  revert b. induction a as [|c a IH]; intros b Ha Hb E.
  - destruct b as [|d b]; [reflexivity|].
    injection E as <- _. simpl in Hb. discriminate Hb.
  - simpl in Ha. apply andb_prop in Ha. destruct Ha as [Hc Ha].
    destruct b as [|d b].
    + injection E as -> _. discriminate Hc.
    + injection E as <- E. simpl in Hb. apply andb_prop in Hb.
      destruct Hb as [_ Hb]. now rewrite (IH b Ha Hb E).
Qed.

Lemma SECTION_CONFIG_props_ident (item : string * (string * string)) :
  In item SECTION_CONFIG -> is_ident (prop_name_of item) = true.
Proof.
  assert (forallb (fun it => is_ident (prop_name_of it)) SECTION_CONFIG = true)
    as H by (vm_compute; reflexivity).
  rewrite forallb_forall in H. apply H.
Qed.

(** C10.  In the generated file the aggregate interface has, for each pair
    (property, type) of [repository_entries] and in that order, the line
    [  property: type;], and the factory has, for the same pairs in the same
    order, the line [  property: storage as type,].  The pairs are those of
    the narrowed types emitted, one for each in the order of the
    declarations; no property and no type occurs twice among them, a
    skipped domain has none, and different pairs give different lines in
    both blocks. *)
Theorem aggregate_and_factory_agree (sections : odict) :
  let emitted := filter (nonempty_section sections) SECTION_CONFIG in
  let entries := repository_entries SECTION_CONFIG sections in
  contracts_lines SECTION_CONFIG sections
  = (header_lines
       ++ map (decl_of sections) emitted
       ++ ["export interface StorageRepositories {"]
       ++ map (fun e => ("  " ++ fst e ++ ": " ++ snd e ++ ";")%string) entries
       ++ [("}" ++ nl)%string]
       ++ ["export const createStorageRepositories = (storage: IStorage): StorageRepositories => ({"]
       ++ map (fun e => ("  " ++ fst e ++ ": storage as " ++ snd e ++ ",")%string)
              entries
       ++ [("});" ++ nl)%string])%list
  /\ entries = map entry_of emitted
  /\ List.length entries = List.length (map (decl_of sections) emitted)
  /\ NoDup (map fst entries)
  /\ NoDup (map snd entries)
  /\ (forall item,
         In item SECTION_CONFIG ->
         nonempty_section sections item = false ->
         ~ In (snd (snd item)) (map fst entries)
         /\ ~ In (fst (snd item)) (map snd entries))
  /\ (forall e e',
         In e entries -> In e' entries ->
         ("  " ++ fst e ++ ": " ++ snd e ++ ";"
          = "  " ++ fst e' ++ ": " ++ snd e' ++ ";"
          \/ "  " ++ fst e ++ ": storage as " ++ snd e ++ ","
             = "  " ++ fst e' ++ ": storage as " ++ snd e' ++ ",") ->
         e = e').
Proof.
  intros emitted entries.
  assert (entries = map entry_of emitted) as He.
  { unfold entries, repository_entries. now rewrite contracts_loop_eq. }
  assert (NoDup (map prop_name_of SECTION_CONFIG)) as Hp
      by (apply distinctb_sound; vm_compute; reflexivity).
  assert (NoDup (map type_name_of SECTION_CONFIG)) as Ht
      by (apply distinctb_sound; vm_compute; reflexivity).
  assert (NoDup (map fst entries)) as Hfst.
  { rewrite He, map_map. now apply NoDup_map_filter. }
  split; [|split; [exact He|split; [|split; [exact Hfst|split; [|split]]]]].
  - rewrite contracts_lines_parts. fold emitted. fold entries.
    do 3 f_equal.
    assert (map aggregate_line entries
            = map (fun e => "  " ++ fst e ++ ": " ++ snd e ++ ";") entries)
      as -> by (apply map_ext; intros [p t]; reflexivity).
    do 3 f_equal.
    assert (map factory_line entries
            = map (fun e => "  " ++ fst e ++ ": storage as " ++ snd e ++ ",")
                  entries)
      as -> by (apply map_ext; intros [p t]; reflexivity).
    reflexivity.
  - rewrite He. now rewrite !length_map.
  - rewrite He, map_map. now apply NoDup_map_filter.
  - intros item Hin Hskip. rewrite He, !map_map. simpl.
    split; intros Hc; apply in_map_iff in Hc;
      destruct Hc as (item' & E & Hf); apply filter_In in Hf;
      destruct Hf as [Hin' Hne].
    + assert (item' = item) as ->
          by (apply (@NoDup_map_inj_in _ _ prop_name_of SECTION_CONFIG);
              trivial).
      congruence.
    + assert (item' = item) as ->
          by (apply (@NoDup_map_inj_in _ _ type_name_of SECTION_CONFIG);
              trivial).
      congruence.
  - intros e e' Hin Hin' Heq.
    assert (forall x, In x entries -> Str.forallb Str.is_word (fst x) = true)
      as Hid.
    { intros x Hx. rewrite He in Hx. apply in_map_iff in Hx.
      destruct Hx as (item & <- & Hf). apply filter_In in Hf.
      apply is_ident_words. exact (SECTION_CONFIG_props_ident item (proj1 Hf)). }
    assert (fst e = fst e') as Hsame.
    { destruct Heq as [Heq|Heq]; injection Heq as Heq;
        exact (ident_colon_eq _ _ _ _ (Hid e Hin) (Hid e' Hin') Heq). }
    exact (@NoDup_map_inj_in _ _ fst entries e e' Hfst Hin Hin' Hsame).
Qed.

Lemma aggregate_and_factory_agree_witness :
  contracts_lines SECTION_CONFIG
                  [("Invoices", ["getInvoice"]); ("Deals", ["constructor"]);
                   ("Messages", ["sendMessage"; "listMessages"])]
  = ["import type { IStorage } from '../storage';";
     "";
     "export type InvoiceRepository = Pick<IStorage," ++ nl
       ++ "  'getInvoice'" ++ nl ++ ">;" ++ nl;
     "export type MessageRepository = Pick<IStorage," ++ nl
       ++ "  'sendMessage' |" ++ nl ++ "  'listMessages'" ++ nl ++ ">;" ++ nl;
     "export interface StorageRepositories {";
     "  invoices: InvoiceRepository;";
     "  messages: MessageRepository;";
     "}" ++ nl;
     "export const createStorageRepositories = (storage: IStorage): StorageRepositories => ({";
     "  invoices: storage as InvoiceRepository,";
     "  messages: storage as MessageRepository,";
     "});" ++ nl].
Proof.
  destruct (aggregate_and_factory_agree
              [("Invoices", ["getInvoice"]); ("Deals", ["constructor"]);
               ("Messages", ["sendMessage"; "listMessages"])]) as (H & _).
  rewrite H. vm_compute. reflexivity.
Defined.

(** ** What a class block gives *)

Lemma set_add_nil (n : string) : set_add n [] = [n].
Proof. reflexivity. Qed.

Lemma In_set_add (n x : string) (s : name_set) :
  In n (set_add x s) <-> n = x \/ In n s.
Proof.
  split; [apply set_add_In|].
  unfold set_add. destruct (set_mem x s) eqn:E.
  - intros [->|H]; [|exact H]. now apply set_mem_true_iff.
  - intros [->|H]; apply in_or_app; [right; now left|now left].
Qed.

Lemma methods_step_line_method (result : name_set) (line : string) :
  methods_step result line
  = match line_method line with
    | Some n => set_add n result
    | None => result
    end.
Proof.
  unfold line_method, methods_step.
  destruct (Str.is_empty (Str.strip line) || Str.startswith "//" (Str.strip line));
    [reflexivity|].
  destruct (Str.startswith "async " (Str.strip line)); [reflexivity|].
  destruct (is_some (Re.match_ sync_re (Str.strip line))
            && negb (Str.contains "constructor" (Str.strip line))
            && negb (Str.contains "async" (Str.strip line))); reflexivity.
Qed.

Lemma methods_fold_In (n : string) (lines : list string) (result : name_set) :
  In n (fold_left methods_step lines result)
  <-> In n result
      \/ exists line, In line lines /\ line_method line = Some n.
Proof.
  revert result. induction lines as [|l lines IH]; intros result; simpl.
  - split; [now left|]. intros [H|(line & [] & _)]. exact H.
  - rewrite IH, methods_step_line_method. split.
    + intros [H|(line & Hin & Hl)].
      * destruct (line_method l) as [x|] eqn:E; [|now left].
        apply In_set_add in H. destruct H as [->|H]; [|now left].
        right. exists l. split; [now left|exact E].
      * right. exists line. split; [now right|exact Hl].
    + intros [H|(line & [<-|Hin] & Hl)].
      * left. destruct (line_method l); [|exact H].
        apply In_set_add. now right.
      * left. rewrite Hl. apply In_set_add. now left.
      * right. now exists line.
Qed.

(** C1, as the code has it.  For a class name of identifier characters and
    a text in which the class header comes first, followed without a brace
    by the opening brace, [extract_methods] attributes to the class
    exactly the names declared on the lines between that opening brace and
    the last line of the whole text that starts with a closing brace.
    Neither nesting nor the class's own closing brace is looked for:
    declarations in nested constructs, and in constructs that follow in
    the same text before that last line, are attributed as well. *)
Theorem extract_methods_attributes_block_lines
        (pre ws class_name mid block post : string) :
  let rest := "class" ++ ws ++ class_name ++ mid ++ "{" ++ block
                      ++ closing ++ post in
  none_before (class_header class_name) pre rest = true ->
  Str.is_empty ws = false -> Str.forallb Str.is_space ws = true ->
  is_ident class_name = true ->
  Str.forallb (fun c => negb (Ascii.eqb c "{")) mid = true ->
  Str.contains closing post = false ->
  forall n,
    In n (extract_methods (pre ++ rest) class_name)
    <-> exists line,
        In line (Str.split Str.newline block) /\ line_method line = Some n.
Proof.
  intros rest Hpre Hne Hws Hcn Hmid Hpost n. unfold extract_methods.
  rewrite (search_skip (class_re class_name) (class_header class_name) pre
                       rest (class_header_needed class_name) Hpre).
  rewrite (search_here (class_re class_name) rest
                       (match_class ws class_name mid block post
                                    Hne Hws Hcn Hmid Hpost)).
  unfold methods_of_block. cbn [Re.group1 fst nth].
  rewrite methods_fold_In. split; [|now right].
  intros [[]|H]. exact H.
Qed.

Lemma extract_methods_attributes_block_lines_witness :
  let block := nl ++ "  foo() {" ++ nl ++ "    bar() {" ++ nl ++ "    }" ++ nl
               ++ "  }" in
  In "foo" (extract_methods ("class A {" ++ block ++ closing) "A")
  <-> exists line,
      In line (Str.split Str.newline block) /\ line_method line = Some "foo".
Proof.
  intros block.
  apply (extract_methods_attributes_block_lines "" " " "A" " " block "");
    vm_compute; reflexivity.
Defined.

(** C1 fails as stated: the vocabulary of class [A] has the method of the
    class [B] that follows it in the text, and the method declared inside
    a method body of [A]. *)
Lemma extract_methods_attributes_later_class :
  let text := "class A {" ++ nl ++ "  foo() {" ++ nl
              ++ "    const helper = {" ++ nl ++ "      nested() {" ++ nl
              ++ "      }" ++ nl ++ "    };" ++ nl ++ "  }" ++ nl ++ "}" ++ nl
              ++ "class B {" ++ nl ++ "  bar() {" ++ nl ++ "  }" ++ nl ++ "}" in
  extract_methods text "A" = ["foo"; "nested"; "bar"]
  /\ extract_methods text "B" = ["bar"].
Proof. split; vm_compute; reflexivity. Qed.

(** ** A class that is not found, or not closed *)






(** ** The two shapes of a declaration *)










